(** * Optimization-based control ([control/obc.py]): a shallow embedding

    The development follows [obc.py] top to bottom: the NumPy operations the
    module relies on, the constraint descriptors, the
    [OptimalControlProblem] class (constructor, [cost_function],
    [constraint_function], [compute_trajectory], [mpc], [__call__]) and the
    polytope constraint factories.

    Conventions.
    - Array elements are kept abstract (class [Scalar]): every statement
      holds for whatever arithmetic the arrays carry.
    - A Python exception is a value of type [exception]; code that can raise
      returns a [result].
    - Methods of the class run in the monad [M], which threads the instance
      ([self]) and the log of emitted warnings.
    - The plant simulator ([ct.input_output_response]), the solver
      ([scipy.optimize.minimize]) and the response packager
      ([_process_time_response]) are collaborators living outside [obc.py];
      they are section variables. *)

From Stdlib Require Import String ZArith Arith Bool Lia List.
Import ListNotations.

Set Implicit Arguments.

(** ** Python exceptions and fallible computations *)

(** The class objects used as the first component of a constraint tuple.
    [OtherType] stands for any object that is neither
    [opt.LinearConstraint] nor [opt.NonlinearConstraint]. *)
Inductive ctype : Type :=
| LinearConstraint
| NonlinearConstraint
| OtherType (name : string).

(** One constructor per raise site that matters to [obc.py]. *)
Inductive exception : Type :=
| ValueError_concatenate            (* np.hstack([]): need at least one array *)
| ValueError_reshape                (* cannot reshape array into shape (r, c) *)
| ValueError_shapes                 (* shapes not aligned / row counts differ *)
| IndexError                        (* index out of bounds for an axis *)
| AttributeError (attr : string)    (* attribute read before it was ever set *)
| UnboundLocalError (var : string)  (* local variable read before assignment *)
| TypeError_unknown_constraint (type : ctype)  (* unknown constraint type *)
| TypeError_unpack_None             (* cannot unpack non-iterable NoneType *)
| TypeError_operand.                (* array called, or callable multiplied *)

Inductive result (A : Type) : Type :=
| Ok (a : A)
| Raise (e : exception).
Arguments Ok {A} a.
Arguments Raise {A} e.

Definition rbind {A B} (r : result A) (k : A -> result B) : result B :=
  match r with
  | Ok a => k a
  | Raise e => Raise e
  end.

Notation "'let?' x ':=' e 'in' k" := (rbind e (fun x => k))
  (at level 10, x pattern, e at level 100, k at level 200).

(** A Python [for] loop over a list whose body updates the loop-carried
    state [S] and may raise: the first exception ends the loop. *)
Fixpoint for_each {A S} (l : list A) (body : A -> S -> result S) (s : S)
  : result S :=
  match l with
  | [] => Ok s
  | a :: l' => let? s' := body a s in for_each l' body s'
  end.

(** [enumerate(l)] *)
Definition enumerate {A} (l : list A) : list (nat * A) :=
  combine (seq 0 (length l)) l.

(** ** Scalars and NumPy arrays *)

Class Scalar (R : Type) : Type := {
  zero : R;
  add : R -> R -> R;
  mul : R -> R -> R;
  neg_inf : R        (* -np.inf *)
}.

Section Numpy.
Context {R : Type} `{Scalar R}.

(** A 1-D array. *)
Definition vec : Type := list R.

(** A 2-D array of shape [(shape0, shape1)], stored by rows ([shape0]
    is their number); every row of a NumPy array has [shape1] entries. *)
Record ndarray2 : Type := {
  shape1 : nat;
  rows : list vec
}.

Definition shape0 (a : ndarray2) : nat := length (rows a).

(** [np.zeros(n)], [np.full(n, v)], [np.zeros((r, c))] *)
Definition np_zeros (n : nat) : vec := repeat zero n.
Definition np_full (n : nat) (v : R) : vec := repeat v n.
Definition np_zeros2 (r c : nat) : ndarray2 :=
  {| shape1 := c; rows := repeat (np_zeros c) r |}.

(** [np.hstack] of a list of 1-D arrays. *)
Definition np_hstack (l : list vec) : result vec :=
  match l with
  | [] => Raise ValueError_concatenate
  | _ => Ok (concat l)
  end.

(** [np.hstack] of a list of 2-D arrays: the blocks are glued side by
    side, and must all have the same number of rows. *)
Definition glue (a b : ndarray2) : result ndarray2 :=
  if shape0 a =? shape0 b
  then Ok {| shape1 := shape1 a + shape1 b;
             rows := map (fun p => fst p ++ snd p)
                         (combine (rows a) (rows b)) |}
  else Raise ValueError_shapes.

Definition np_hstack2 (l : list ndarray2) : result ndarray2 :=
  match l with
  | [] => Raise ValueError_concatenate
  | a :: l' => for_each l' (fun b acc => glue acc b) a
  end.

(** [v.reshape((r, c))] for a 1-D array [v] (row-major order). *)
Fixpoint chunks (r c : nat) (v : vec) : list vec :=
  match r with
  | 0 => []
  | S r' => firstn c v :: chunks r' c (skipn c v)
  end.

Definition reshape (v : vec) (r c : nat) : result ndarray2 :=
  if length v =? r * c
  then Ok {| shape1 := c; rows := chunks r c v |}
  else Raise ValueError_reshape.

(** [a[:, i]] for [0 <= i]: column [i]. *)
Definition column (a : ndarray2) (i : nat) : vec :=
  map (fun r => nth i r zero) (rows a).

Definition col (a : ndarray2) (i : nat) : result vec :=
  if i <? shape1 a then Ok (column a i) else Raise IndexError.

(** [a[:, -1]]: the last column. *)
Definition col_last (a : ndarray2) : result vec :=
  match shape1 a with
  | 0 => Raise IndexError
  | S n => Ok (column a n)
  end.

(** [a.transpose()] and [a[0]] (first row). *)
Definition transpose (a : ndarray2) : ndarray2 :=
  {| shape1 := shape0 a;
     rows := map (column a) (seq 0 (shape1 a)) |}.

Definition row0 (a : ndarray2) : result vec :=
  match rows a with
  | [] => Raise IndexError
  | r :: _ => Ok r
  end.

(** [np.dot(a, v)] / [a @ v] for a 2-D [a] and a 1-D [v]: one inner
    product per row.  NumPy leaves the order of the additions to the
    underlying routine; [inner] adds from left to right. *)
Definition inner (r v : vec) : R :=
  fold_left add (map (fun p => mul (fst p) (snd p)) (combine r v)) zero.

Definition np_dot (a : ndarray2) (v : vec) : result vec :=
  if shape1 a =? length v
  then Ok (map (fun r => inner r v) (rows a))
  else Raise ValueError_shapes.

End Numpy.

Arguments vec R : clear implicits.
Arguments ndarray2 R : clear implicits.

(** ** The objects [obc.py] works with *)

Section Obc.
Context {R : Type} `{Scalar R}.

(** The second component of a constraint tuple: the polytope matrix of a
    linear constraint, or the function of a nonlinear one (which, like
    [_evaluate_output_constraint] below, may raise).  Python does not tie
    it to the first component, and neither does this type. *)
Inductive evaluator : Type :=
| Matrix (a : ndarray2 R)
| Callable (f : vec R -> result (vec R)).

(** A constraint is the 4-tuple [(type, fun, lb, ub)]. *)
Definition constraint : Type := (ctype * evaluator * vec R * vec R)%type.

Definition ctype_of (c : constraint) : ctype := fst (fst (fst c)).
Definition lb_of (c : constraint) : vec R := snd (fst c).
Definition ub_of (c : constraint) : vec R := snd c.

(** What the module reads of the plant [sys]. *)
Record InputOutputSystem : Type := {
  ninputs : nat;
  nstates : nat;
  _out : R -> vec R -> vec R -> vec R
}.

(** What the module reads of a polytope [{x : A x <= b}]. *)
Record Polytope : Type := {
  poly_A : ndarray2 R;
  poly_b : vec R
}.

(** The value returned by [scipy.optimize.minimize]. *)
Record OptimizeResult : Type := {
  success : bool;
  message : string;
  res_x : vec R
}.

(** [sp.optimize.NonlinearConstraint(self.constraint_function, lb, ub)]:
    the function is a method bound to [self], so it sees the instance as
    it is when the solver calls it. *)
Inductive bound_method : Type := self_constraint_function.

Record NonlinearConstraint_object : Type := {
  nc_fun : bound_method;
  nc_lb : vec R;
  nc_ub : vec R
}.

(** The instance attributes of [OptimalControlProblem].  [x] is not set
    by the constructor: it is [None] until [compute_trajectory] stores
    the initial state. *)
Record OptimalControlProblem : Type := {
  system : InputOutputSystem;
  time_vector : vec R;
  integral_cost : vec R -> vec R -> R;
  trajectory_constraints : list constraint;
  terminal_cost : option (vec R -> vec R -> R);
  terminal_constraints : list constraint;
  constraint_lb : vec R;
  constraint_ub : vec R;
  constraints : NonlinearConstraint_object;
  initial_guess : vec R;
  x : option (vec R)
}.

Definition with_x (self : OptimalControlProblem) (v : vec R)
  : OptimalControlProblem :=
  {| system := system self;
     time_vector := time_vector self;
     integral_cost := integral_cost self;
     trajectory_constraints := trajectory_constraints self;
     terminal_cost := terminal_cost self;
     terminal_constraints := terminal_constraints self;
     constraint_lb := constraint_lb self;
     constraint_ub := constraint_ub self;
     constraints := constraints self;
     initial_guess := initial_guess self;
     x := Some v |}.

(** *** The method monad: the instance and the warnings emitted so far *)

Record world : Type := {
  self_ : OptimalControlProblem;
  warnings : list string
}.

Definition M (T : Type) : Type := world -> result T * world.

Definition ret {T} (t : T) : M T := fun w => (Ok t, w).
Definition raise {T} (e : exception) : M T := fun w => (Raise e, w).
Definition bind {T U} (m : M T) (k : T -> M U) : M U :=
  fun w => match m w with
           | (Ok t, w') => k t w'
           | (Raise e, w') => (Raise e, w')
           end.
Definition lift {T} (r : result T) : M T := fun w => (r, w).
Definition get_self : M OptimalControlProblem := fun w => (Ok (self_ w), w).
Definition get_world : M world := fun w => (Ok w, w).

(** [self.x] *)
Definition getattr_x : M (vec R) :=
  fun w => match x (self_ w) with
           | Some v => (Ok v, w)
           | None => (Raise (AttributeError "x"), w)
           end.

(** [self.x = v] *)
Definition setattr_x (v : vec R) : M unit :=
  fun w => (Ok tt, {| self_ := with_x (self_ w) v; warnings := warnings w |}).

(** [warnings.warn(msg)] *)
Definition warn (msg : string) : M unit :=
  fun w => (Ok tt, {| self_ := self_ w; warnings := warnings w ++ [msg] |}).

End Obc.

Arguments evaluator R : clear implicits.
Arguments constraint R : clear implicits.
Arguments InputOutputSystem R : clear implicits.
Arguments Polytope R : clear implicits.
Arguments OptimizeResult R : clear implicits.
Arguments NonlinearConstraint_object R : clear implicits.
Arguments OptimalControlProblem R : clear implicits.
Arguments world R : clear implicits.
Arguments M R T : clear implicits.

Notation "v <- m ;; k" := (bind m (fun v => k))
  (at level 61, m at next level, right associativity).

(** ** The class [OptimalControlProblem] *)

Section OptimalControlProblem.
Context {R : Type} `{Scalar R}.

(** Modelled from the spec: the result type of [_process_time_response]
    ([control/timeresp.py] is not among the sources), which section 4.6
    gives as the pair (state trajectory or none, input trajectory).  It is
    what [compute_trajectory] hands back on success. *)
Definition response : Type := (option (ndarray2 R) * option (ndarray2 R))%type.

(** The constraint as the solver receives it, the bound method resolved. *)
Definition solver_constraint : Type :=
  ((vec R -> result (vec R)) * vec R * vec R)%type.

(** [ct.input_output_response(sys, T, U, X0, return_x=True)]: the state
    trajectory, third component of the returned triple.  The simulator
    is not part of [obc.py]; it is taken as the specification describes
    it, a function that returns a state trajectory for every time grid.
    A simulator that raises instead (as the toolbox's own does on an
    empty grid) ends the calling method with that exception before any
    of the code below the call runs, so every statement about a value
    computed after the call is a statement about a simulation that
    returns. *)
Variable input_output_response :
  InputOutputSystem R -> vec R -> ndarray2 R -> vec R -> ndarray2 R.

(** [sp.optimize.minimize(fun, x0, constraints=...)] *)
Variable minimize :
  (vec R -> result R) -> vec R -> solver_constraint -> OptimizeResult R.

(** [_process_time_response(sys, tout, yout, xout, transpose=, return_x=,
    squeeze=)] *)
Variable _process_time_response :
  InputOutputSystem R -> vec R -> ndarray2 R -> option (ndarray2 R) ->
  option bool -> option bool -> option bool -> response.

(** *** [__init__] *)

(** [constraint_lb.append(lb); constraint_ub.append(ub)] *)
Definition append_bounds (acc : list (vec R) * list (vec R)) (c : constraint R)
  : list (vec R) * list (vec R) :=
  let '(type, fun_, lb, ub) := c in
  (fst acc ++ [lb], snd acc ++ [ub]).

Definition stack_bounds (time : vec R)
           (trajectory_constraints terminal_constraints : list (constraint R))
  : list (vec R) * list (vec R) :=
  (* Go through each time point and stack the bounds *)
  let acc :=
    fold_left
      (fun acc time => fold_left append_bounds trajectory_constraints acc)
      time ([], []) in
  (* Add on the terminal constraints *)
  fold_left append_bounds terminal_constraints acc.

Definition __init__ (sys : InputOutputSystem R) (time : vec R)
           (integral_cost : vec R -> vec R -> R)
           (trajectory_constraints : list (constraint R))
           (terminal_cost : option (vec R -> vec R -> R))
           (terminal_constraints : list (constraint R))
  : result (OptimalControlProblem R) :=
  let '(constraint_lb, constraint_ub) :=
    stack_bounds time trajectory_constraints terminal_constraints in
  (* Turn constraint vectors into 1D arrays *)
  let? lb := np_hstack constraint_lb in
  let? ub := np_hstack constraint_ub in
  Ok {| system := sys;
        time_vector := time;
        integral_cost := integral_cost;
        trajectory_constraints := trajectory_constraints;
        terminal_cost := terminal_cost;
        terminal_constraints := terminal_constraints;
        constraint_lb := lb;
        constraint_ub := ub;
        constraints := {| nc_fun := self_constraint_function;
                          nc_lb := lb; nc_ub := ub |};
        initial_guess := np_zeros (ninputs sys * length time);
        x := None |}.

(** *** [cost_function] *)

Definition cost_function (inputs : vec R) : M R R :=
  (* Retrieve the initial state and reshape the input vector *)
  x <- getattr_x ;;
  self <- get_self ;;
  inputs <- lift (reshape inputs (ninputs (system self))
                          (length (time_vector self))) ;;
  (* Simulate the system to get the state *)
  let states :=
    input_output_response (system self) (time_vector self) inputs x in
  (* Trajectory cost *)
  cost <- lift (for_each (enumerate (time_vector self))
                  (fun '(i, time) cost =>
                     let? s := col states i in
                     let? u := col inputs i in
                     Ok (add cost (integral_cost self s u)))
                  zero) ;;
  (* Terminal cost *)
  match terminal_cost self with
  | Some terminal_cost =>
      s <- lift (col_last states) ;;
      u <- lift (col_last inputs) ;;
      ret (add cost (terminal_cost s u))
  | None => ret cost
  end.

(** *** [constraint_function] *)

(** [np.hstack([states[:,i], inputs[:,i]])], where [i] is the loop
    variable of the trajectory loop: unbound until that loop has run
    once. *)
Definition stacked (states inputs : ndarray2 R) (i : option nat)
  : result (vec R) :=
  match i with
  | None => Raise (UnboundLocalError "i")
  | Some k =>
      let? s := col states k in
      let? u := col inputs k in
      np_hstack [s; u]
  end.

(** The [if type == ... elif ... else raise] block, the same in both
    loops. *)
Definition evaluate (states inputs : ndarray2 R) (i : option nat)
           (c : constraint R) : result (vec R) :=
  let '(type, fun_, lb, ub) := c in
  match type with
  | LinearConstraint =>
      let? v := stacked states inputs i in
      match fun_ with
      | Matrix a => np_dot a v
      | Callable _ => Raise TypeError_operand
      end
  | NonlinearConstraint =>
      let? v := stacked states inputs i in
      match fun_ with
      | Callable f => f v
      | Matrix _ => Raise TypeError_operand
      end
  | OtherType _ => Raise (TypeError_unknown_constraint type)
  end.

(** The local variables the two loops share: [(i, value)]. *)
Definition locals : Type := (option nat * list (vec R))%type.

(** [for constraint in constraints: ... value.append(...)] with the
    loop variable [i] as it currently is. *)
Definition evaluate_all (states inputs : ndarray2 R)
           (cs : list (constraint R)) (l : locals) : result locals :=
  for_each cs
    (fun c l => let? v := evaluate states inputs (fst l) c in
                Ok (fst l, snd l ++ [v]))
    l.

Definition constraint_values (self : OptimalControlProblem R)
           (states inputs : ndarray2 R) : result (list (vec R)) :=
  (* Evaluate the constraint function along the trajectory *)
  let? l := for_each (enumerate (time_vector self))
              (fun '(i, time) l =>
                 evaluate_all states inputs (trajectory_constraints self)
                              (Some i, snd l))
              (None, []) in
  (* Evaluate the terminal constraint functions *)
  let? l := evaluate_all states inputs (terminal_constraints self) l in
  Ok (snd l).

Definition constraint_function (inputs : vec R) : M R (vec R) :=
  (* Retrieve the initial state and reshape the input vector *)
  x <- getattr_x ;;
  self <- get_self ;;
  inputs <- lift (reshape inputs (ninputs (system self))
                          (length (time_vector self))) ;;
  (* Simulate the system to get the state *)
  let states :=
    input_output_response (system self) (time_vector self) inputs x in
  value <- lift (constraint_values self states inputs) ;;
  (* Return the value of the constraint function *)
  lift (np_hstack value).

(** *** [compute_trajectory], [mpc], [__call__] *)

Definition truthy (o : option bool) : bool :=
  match o with Some true => true | _ => false end.

(** The stored constraint object as passed to the solver while the
    instance is in state [w]. *)
Definition resolve (c : NonlinearConstraint_object R) (w : world R)
  : solver_constraint :=
  match nc_fun c with
  | self_constraint_function =>
      (fun u => fst (constraint_function u w), nc_lb c, nc_ub c)
  end.

Definition compute_trajectory (x0 : vec R)
           (squeeze transpose_ return_x : option bool)
  : M R (option response) :=
  (* Store the initial state (for use in constraint_function) *)
  _ <- setattr_x x0 ;;
  self <- get_self ;;
  w <- get_world ;;
  (* Call SciPy optimizer *)
  let res := minimize (fun u => fst (cost_function u w))
                      (initial_guess self)
                      (resolve (constraints self) w) in
  (* See if we got an answer *)
  if negb (success res) then
    _ <- warn (message res) ;;
    ret None
  else
    (* Reshape the input vector *)
    inputs <- lift (reshape (res_x res) (ninputs (system self))
                            (length (time_vector self))) ;;
    let states :=
      if truthy return_x
      then Some (input_output_response (system self) (time_vector self)
                                       inputs x0)
      else None in
    ret (Some (_process_time_response (system self) (time_vector self)
                 inputs states transpose_ return_x squeeze)).

Definition mpc (x0 : vec R) (squeeze : option bool) : M R (option (vec R)) :=
  r <- compute_trajectory x0 squeeze None None ;;
  match r with
  | None => raise TypeError_unpack_None      (* _, inputs = None *)
  | Some (_, inputs) =>
      match inputs with
      | None => ret None
      | Some inputs => v <- lift (row0 (transpose inputs)) ;; ret (Some v)
      end
  end.

Definition __call__ (x0 : vec R) (squeeze : option bool)
  : M R (option (vec R)) :=
  mpc x0 squeeze.

(** ** Constraint factories *)

Definition state_poly_constraint (sys : InputOutputSystem R)
           (polytope : Polytope R) : result (constraint R) :=
  let? a := np_hstack2
              [poly_A polytope;
               np_zeros2 (shape0 (poly_A polytope)) (ninputs sys)] in
  Ok (LinearConstraint, Matrix a,
      np_full (shape0 (poly_A polytope)) neg_inf, poly_b polytope).

Definition input_poly_constraint (sys : InputOutputSystem R)
           (polytope : Polytope R) : result (constraint R) :=
  let? a := np_hstack2
              [np_zeros2 (shape0 (poly_A polytope)) (nstates sys);
               poly_A polytope] in
  Ok (LinearConstraint, Matrix a,
      np_full (shape0 (poly_A polytope)) neg_inf, poly_b polytope).

Definition output_poly_constraint (sys : InputOutputSystem R)
           (polytope : Polytope R) : constraint R :=
  let _evaluate_output_constraint (x : vec R) : result (vec R) :=
    (* Separate the constraint into states and inputs *)
    let states := firstn (nstates sys) x in
    let inputs := skipn (nstates sys) x in
    let outputs := _out sys zero states inputs in
    np_dot (poly_A polytope) outputs in
  (NonlinearConstraint, Callable _evaluate_output_constraint,
   np_full (shape0 (poly_A polytope)) neg_inf, poly_b polytope).

End OptimalControlProblem.

Arguments response R : clear implicits.
Arguments solver_constraint R : clear implicits.

(** ** Reference definitions the properties are stated against *)

Section Reference.
Context {R : Type} `{Scalar R}.

(** Evaluate [f] on every element, left to right, stopping at the first
    exception. *)
Fixpoint mapM {A B} (f : A -> result B) (l : list A) : result (list B) :=
  match l with
  | [] => Ok []
  | a :: l' => let? b := f a in
               let? bs := mapM f l' in
               Ok (b :: bs)
  end.

(** The stacking order: one slot per (time index, trajectory constraint),
    time-point-major then constraint-list order, followed by one slot
    per terminal constraint at the final time index. *)
Definition stacking_order (time : vec R)
           (trajectory_constraints terminal_constraints : list (constraint R))
  : list (nat * constraint R) :=
  flat_map (fun k => map (pair k) trajectory_constraints)
           (seq 0 (length time))
  ++ map (pair (length time - 1)) terminal_constraints.

(** What one descriptor contributes at the point [v = [x_k; u_k]]. *)
Definition contribution (c : constraint R) (v : vec R) : result (vec R) :=
  match c with
  | (LinearConstraint, Matrix a, _, _) => np_dot a v
  | (NonlinearConstraint, Callable f, _, _) => f v
  | (OtherType n, _, _, _) => Raise (TypeError_unknown_constraint (OtherType n))
  | _ => Raise TypeError_operand
  end.

(** The concatenated (state, input) vector at time index [k]. *)
Definition point (states inputs : ndarray2 R) (k : nat) : vec R :=
  column states k ++ column inputs k.

(** Constraint evaluation as the specification words it: the trajectory
    constraints at every time point in nested order, then every terminal
    constraint at the final time point [N - 1], indexed explicitly. *)
Definition constraint_values_spec (self : OptimalControlProblem R)
           (states inputs : ndarray2 R) : result (list (vec R)) :=
  let N := length (time_vector self) in
  let? along :=
    mapM (fun kc => evaluate states inputs (Some (fst kc)) (snd kc))
         (flat_map (fun k => map (pair k) (trajectory_constraints self))
                   (seq 0 N)) in
  let? final :=
    mapM (evaluate states inputs (Some (N - 1)))
         (terminal_constraints self) in
  Ok (along ++ final).

(** The value of the loop variable [i] once a loop over
    [enumerate(time)], counting from [a], is over: what it was before
    when the loop body never ran, the last index otherwise. *)
Definition leftover (a : nat) (time : vec R) (i0 : option nat) : option nat :=
  match time with
  | [] => i0
  | _ => Some (a + length time - 1)
  end.

(** The running cost summed over the [N] simulated (state, input) pairs. *)
Definition running_cost_sum (self : OptimalControlProblem R)
           (states inputs : ndarray2 R) : R :=
  fold_left add
    (map (fun k => integral_cost self (column states k) (column inputs k))
         (seq 0 (length (time_vector self))))
    zero.

(** A descriptor produced by one of the three factories of the module. *)
Definition from_factory (c : constraint R) : Prop :=
  exists (sys : InputOutputSystem R) (polytope : Polytope R),
    state_poly_constraint sys polytope = Ok c \/
    input_poly_constraint sys polytope = Ok c \/
    output_poly_constraint sys polytope = c.

(** The exceptions other than the one raised by the [else] branch of
    the type dispatch. *)
Definition known (e : exception) : Prop :=
  forall t, e <> TypeError_unknown_constraint t.

(** The first time sample of a trajectory stored one row per input:
    entry [0] of every row. *)
Definition first_sample (a : ndarray2 R) : vec R :=
  map (hd zero) (rows a).

(** The block matrices [[A | 0]] and [[0 | A]]. *)
Definition pad_right (a : ndarray2 R) (width : nat) : ndarray2 R :=
  {| shape1 := shape1 a + width;
     rows := map (fun r => r ++ repeat zero width) (rows a) |}.

Definition pad_left (width : nat) (a : ndarray2 R) : ndarray2 R :=
  {| shape1 := width + shape1 a;
     rows := map (fun r => repeat zero width ++ r) (rows a) |}.

End Reference.

(** ** Sequences of method calls on one instance *)

Section Calls.
Context {R : Type} `{Scalar R}.
Variable input_output_response :
  InputOutputSystem R -> vec R -> ndarray2 R -> vec R -> ndarray2 R.
Variable minimize :
  (vec R -> result R) -> vec R -> solver_constraint R -> OptimizeResult R.
Variable _process_time_response :
  InputOutputSystem R -> vec R -> ndarray2 R -> option (ndarray2 R) ->
  option bool -> option bool -> option bool -> response R.

(** A method that leaves the instance and the warning log as they
    were. *)
Definition reads_only {T} (m : M R T) : Prop :=
  forall w, snd (m w) = w.

Inductive call : Type :=
| call_cost_function (inputs : vec R)
| call_constraint_function (inputs : vec R)
| call_compute_trajectory (x0 : vec R)
                          (squeeze transpose_ return_x : option bool)
| call_mpc (x0 : vec R) (squeeze : option bool).

(** The world after one call, whatever the call returned or raised. *)
Definition after (c : call) (w : world R) : world R :=
  match c with
  | call_cost_function inputs =>
      snd (cost_function input_output_response inputs w)
  | call_constraint_function inputs =>
      snd (constraint_function input_output_response inputs w)
  | call_compute_trajectory x0 squeeze transpose_ return_x =>
      snd (compute_trajectory input_output_response minimize
             _process_time_response x0 squeeze transpose_ return_x w)
  | call_mpc x0 squeeze =>
      snd (mpc input_output_response minimize _process_time_response
             x0 squeeze w)
  end.

Definition after_all (cs : list call) (w : world R) : world R :=
  fold_left (fun w c => after c w) cs w.

(** The world in which the solver runs when [compute_trajectory x0] is
    called in world [w], and what the solver is called with there. *)
Definition solving (x0 : vec R) (w : world R) : world R :=
  {| self_ := with_x (self_ w) x0; warnings := warnings w |}.

Definition solver_result (x0 : vec R) (w : world R) : OptimizeResult R :=
  minimize
    (fun u => fst (cost_function input_output_response u (solving x0 w)))
    (initial_guess (self_ w))
    (resolve input_output_response (constraints (self_ w)) (solving x0 w)).

End Calls.

(** ** A concrete instance: an integrator over integer-valued samples *)

Module Example.

(** Integers extended with the infinities and a not-a-number value. *)
Inductive xint : Type :=
| Fin (z : Z)
| NegInf
| PosInf
| NaN.

Definition xadd (a b : xint) : xint :=
  match a, b with
  | Fin p, Fin q => Fin (p + q)
  | NaN, _ | _, NaN => NaN
  | NegInf, PosInf | PosInf, NegInf => NaN
  | NegInf, _ | _, NegInf => NegInf
  | PosInf, _ | _, PosInf => PosInf
  end.

Definition xsign (pos : bool) (z : Z) : xint :=
  match z with
  | Z0 => NaN
  | Zpos _ => if pos then PosInf else NegInf
  | Zneg _ => if pos then NegInf else PosInf
  end.

Definition xmul (a b : xint) : xint :=
  match a, b with
  | Fin p, Fin q => Fin (p * q)
  | NaN, _ | _, NaN => NaN
  | PosInf, Fin q | Fin q, PosInf => xsign true q
  | NegInf, Fin q | Fin q, NegInf => xsign false q
  | PosInf, PosInf | NegInf, NegInf => PosInf
  | PosInf, NegInf | NegInf, PosInf => NegInf
  end.

#[export] Instance xint_scalar : Scalar xint :=
  {| zero := Fin 0; add := xadd; mul := xmul; neg_inf := NegInf |}.

(** The plant [x(k+1) = x(k) + u(k)], one state and one input; its
    output is its state. *)
Definition sys : InputOutputSystem xint :=
  {| ninputs := 1; nstates := 1; _out := fun _ x _ => x |}.

(** Simulation of [sys]: the state at sample [k] is the initial state
    plus the inputs applied before [k]. *)
Definition simulate (s : InputOutputSystem xint) (time : vec xint)
           (u : ndarray2 xint) (x0 : vec xint) : ndarray2 xint :=
  {| shape1 := length time;
     rows := map (fun xi =>
                    map (fun k => fold_left xadd
                                    (firstn k (nth 0 (rows u) [])) xi)
                        (seq 0 (length time)))
                 x0 |}.

(** A solver that gives up, and one that reports its starting point. *)
Definition failing_solver (f : vec xint -> result xint) (x0 : vec xint)
           (c : solver_constraint xint) : OptimizeResult xint :=
  {| success := false;
     message := "Iteration limit exceeded";
     res_x := x0 |}.

Definition lazy_solver (f : vec xint -> result xint) (x0 : vec xint)
           (c : solver_constraint xint) : OptimizeResult xint :=
  {| success := true;
     message := "Optimization terminated successfully";
     res_x := x0 |}.

Definition packager (s : InputOutputSystem xint) (time : vec xint)
           (inputs : ndarray2 xint) (states : option (ndarray2 xint))
           (transpose_ return_x squeeze : option bool) : response xint :=
  (states, Some inputs).

(** Horizon [[0, 1, 2]]; running cost [x*x + u*u]; the state kept below
    [5] along the trajectory, the input above [-1] at the end. *)
Definition time : vec xint := [Fin 0; Fin 1; Fin 2].

Definition square_cost (x u : vec xint) : xint :=
  xadd (inner x x) (inner u u).

Definition state_polytope : Polytope xint :=
  {| poly_A := {| shape1 := 1; rows := [[Fin 1]] |}; poly_b := [Fin 5] |}.

Definition input_polytope : Polytope xint :=
  {| poly_A := {| shape1 := 1; rows := [[Fin (-1)]] |}; poly_b := [Fin 1] |}.

Definition state_bound : constraint xint :=
  (LinearConstraint,
   Matrix {| shape1 := 2; rows := [[Fin 1; Fin 0]] |}, [NegInf], [Fin 5]).

Definition input_bound : constraint xint :=
  (LinearConstraint,
   Matrix {| shape1 := 2; rows := [[Fin 0; Fin (-1)]] |}, [NegInf], [Fin 1]).

Definition doubled : constraint xint :=
  (NonlinearConstraint,
   Callable (fun v => Ok (map (fun a => xadd a a) v)),
   [NegInf; NegInf], [Fin 9; Fin 9]).

Definition mystery : constraint xint :=
  (OtherType "Bounds", Matrix {| shape1 := 2; rows := [] |}, [], []).

(** The instance [__init__] builds from these (computed by hand from the
    constructor, and checked against it below). *)
Definition problem : OptimalControlProblem xint :=
  {| system := sys;
     time_vector := time;
     integral_cost := square_cost;
     trajectory_constraints := [state_bound; doubled];
     terminal_cost := Some square_cost;
     terminal_constraints := [input_bound];
     constraint_lb := [NegInf; NegInf; NegInf; NegInf; NegInf; NegInf;
                       NegInf; NegInf; NegInf; NegInf];
     constraint_ub := [Fin 5; Fin 9; Fin 9; Fin 5; Fin 9; Fin 9;
                       Fin 5; Fin 9; Fin 9; Fin 1];
     constraints :=
       {| nc_fun := self_constraint_function;
          nc_lb := [NegInf; NegInf; NegInf; NegInf; NegInf; NegInf;
                    NegInf; NegInf; NegInf; NegInf];
          nc_ub := [Fin 5; Fin 9; Fin 9; Fin 5; Fin 9; Fin 9;
                    Fin 5; Fin 9; Fin 9; Fin 1] |};
     initial_guess := [Fin 0; Fin 0; Fin 0];
     x := None |}.

Definition fresh : world xint := {| self_ := problem; warnings := [] |}.

(** Variants of [problem], as the constructor builds them. *)
Definition build (traj : list (constraint xint))
           (tcost : option (vec xint -> vec xint -> xint))
           (term : list (constraint xint)) : OptimalControlProblem xint :=
  match __init__ sys time square_cost traj tcost term with
  | Ok self => self
  | Raise _ => problem
  end.

Definition running_only : OptimalControlProblem xint :=
  build [state_bound; doubled] None [input_bound].

Definition odd_trajectory : OptimalControlProblem xint :=
  build [state_bound; mystery; doubled] None [input_bound].

Definition odd_terminal : OptimalControlProblem xint :=
  build [state_bound] None [input_bound; mystery].

Definition polytopes_only : OptimalControlProblem xint :=
  build [state_bound] None [input_bound].

Definition in_world (self : OptimalControlProblem xint) : world xint :=
  {| self_ := with_x self [Fin 1]; warnings := [] |}.

(** A candidate input trajectory, as the matrix it reshapes to, and the
    state trajectory it produces from the initial state [1]. *)
Definition candidate : vec xint := [Fin 1; Fin 2; Fin 3].

Definition candidate_inputs : ndarray2 xint :=
  {| shape1 := 3; rows := [[Fin 1; Fin 2; Fin 3]] |}.

Definition candidate_states : ndarray2 xint :=
  {| shape1 := 3; rows := [[Fin 1; Fin 2; Fin 4]] |}.

End Example.

(** ** [quadratic_cost] *)

Section QuadraticCost.
Context {R : Type} `{Scalar R}.

(** What [np.atleast_2d] is given for [Q] and [R]: a number, a 1-D array
    or a 2-D array. *)
Inductive array_like : Type :=
| Number (r : R)
| Array1 (v : vec R)
| Array2 (a : ndarray2 R).

(** [np.atleast_2d(q)]: a number becomes a 1 x 1 array, a 1-D array of
    length [n] a 1 x n array, a 2-D array is kept. *)
Definition np_atleast_2d (q : array_like) : ndarray2 R :=
  match q with
  | Number r => {| shape1 := 1; rows := [[r]] |}
  | Array1 v => {| shape1 := length v; rows := [v] |}
  | Array2 a => a
  end.

(** [v @ a] for a 1-D [v] and a 2-D [a]: one inner product per column of
    [a]; the length of [v] must be the number of rows of [a]. *)
Definition vecmat (v : vec R) (a : ndarray2 R) : result (vec R) :=
  if length v =? shape0 a
  then Ok (map (fun j => inner v (column a j)) (seq 0 (shape1 a)))
  else Raise ValueError_shapes.

(** [v @ w] for two 1-D arrays, which must have the same length. *)
Definition vdot (v w : vec R) : result R :=
  if length v =? length w
  then Ok (inner v w)
  else Raise ValueError_shapes.

(** [quadratic_cost(sys, Q, R)]: the function
    [lambda x, u: x @ Q @ x + u @ R @ u], whose matrix products raise
    when the shapes do not fit. *)
Definition quadratic_cost (sys : InputOutputSystem R) (Q R_ : array_like)
  : vec R -> vec R -> result R :=
  let Q := np_atleast_2d Q in
  let R_ := np_atleast_2d R_ in
  fun x u =>
    let? xQ := vecmat x Q in
    let? xQx := vdot xQ x in
    let? uR := vecmat u R_ in
    let? uRu := vdot uR u in
    Ok (add xQx uRu).

End QuadraticCost.

Arguments array_like R : clear implicits.

(** ** Further reference definitions *)

Section MoreReference.
Context {R : Type} `{Scalar R}.

(** Every row of a 2-D array has [shape1] entries. *)
Definition rectangular (a : ndarray2 R) : Prop :=
  Forall (fun r => length r = shape1 a) (rows a).

(** The arithmetic the zero padding of the polytope factories relies
    on: adding zero changes nothing, and zero times an entry of [v] is
    zero (which holds for the finite entries of a floating-point
    array). *)
Definition zero_neutral : Prop := forall a : R, add a zero = a.

Definition annihilated (v : vec R) : Prop :=
  Forall (fun b => mul zero b = zero) v.

(** A method whose result is decided by the instance alone, whatever the
    warnings emitted so far. *)
Definition self_determined {T} (m : M R T) : Prop :=
  forall w1 w2, self_ w1 = self_ w2 -> fst (m w1) = fst (m w2).

(** A solver whose result is decided by the values its two callbacks
    return, not by how they are written. *)
Definition extensional
           (minimize : (vec R -> result R) -> vec R -> solver_constraint R ->
                       OptimizeResult R) : Prop :=
  forall f f' g g' guess lb ub,
    (forall u, f u = f' u) ->
    (forall u, g u = g' u) ->
    minimize f guess (g, lb, ub) = minimize f' guess (g', lb, ub).

(** The entries of the flat vector [v] that [v.reshape((r, c))[:, k]]
    picks: [v[k]], [v[c + k]], [v[2c + k]], ... *)
Definition strided (v : vec R) (r c k : nat) : vec R :=
  map (fun i => nth (i * c + k) v zero) (seq 0 r).

End MoreReference.

(** ** More instances of the integrator example *)

Module Example2.
Import Example.

(** The integrator problem over an empty time grid. *)
Definition no_time : OptimalControlProblem xint :=
  match __init__ sys [] square_cost [mystery] (Some square_cost)
                 [input_bound] with
  | Ok self => self
  | Raise _ => problem
  end.

(** The same without a terminal cost. *)
Definition no_time_running_only : OptimalControlProblem xint :=
  match __init__ sys [] square_cost [mystery] None [input_bound] with
  | Ok self => self
  | Raise _ => problem
  end.

(** A plant with two inputs, [x(k+1) = x(k) + u1(k)], a solver that
    reports a fixed optimum for it, and the problem of keeping the
    doubled final point below [9]. *)
Definition sys2 : InputOutputSystem xint :=
  {| ninputs := 2; nstates := 1; _out := fun _ x _ => x |}.

Definition fixed_solver (f : vec xint -> result xint) (x0 : vec xint)
           (c : solver_constraint xint) : OptimizeResult xint :=
  {| success := true;
     message := "Optimization terminated successfully";
     res_x := [Fin 7; Fin 8; Fin 9; Fin 10; Fin 11; Fin 12] |}.

Definition two_inputs : OptimalControlProblem xint :=
  match __init__ sys2 time square_cost [] None
                 [(NonlinearConstraint,
                   Callable (fun v => Ok (map (fun a => xadd a a) v)),
                   [NegInf; NegInf; NegInf], [Fin 9; Fin 9; Fin 9])] with
  | Ok self => self
  | Raise _ => problem
  end.

Definition optimum : ndarray2 xint :=
  {| shape1 := 3;
     rows := [[Fin 7; Fin 8; Fin 9]; [Fin 10; Fin 11; Fin 12]] |}.

(** A polytope on three variables, too wide for the one-state plant. *)
Definition wide_polytope : Polytope xint :=
  {| poly_A := {| shape1 := 3; rows := [[Fin 1; Fin 1; Fin 1]] |};
     poly_b := [Fin 5] |}.

Definition wide_bound : constraint xint :=
  (LinearConstraint,
   Matrix {| shape1 := 4; rows := [[Fin 1; Fin 1; Fin 1; Fin 0]] |},
   [NegInf], [Fin 5]).

Definition too_wide : OptimalControlProblem xint :=
  build [wide_bound] None [].

(** A two-input array, as three samples per input. *)
Definition six : vec xint :=
  [Fin 10; Fin 11; Fin 12; Fin 20; Fin 21; Fin 22].

Definition output_bound : constraint xint :=
  output_poly_constraint sys state_polytope.

End Example2.

(** * Properties *)

(** ** Loops and arrays *)

Section LoopFacts.
Context {R : Type} `{Scalar R}.

Lemma rbind_ok {A B} (r : result A) (k : A -> result B) (b : B) :
  rbind r k = Ok b -> exists a, r = Ok a /\ k a = Ok b.
Proof.
  destruct r as [a|e]; simpl; intros E; [eauto | discriminate].
Qed.

Lemma mapM_app {A B} (f : A -> result B) (l1 l2 : list A) :
  mapM f (l1 ++ l2)
  = let? a := mapM f l1 in let? b := mapM f l2 in Ok (a ++ b).
Proof.
  induction l1 as [|x1 l1 IH]; simpl.
  - destruct (mapM f l2); reflexivity.
  - destruct (f x1) as [y|e]; simpl; [|reflexivity].
    rewrite IH. destruct (mapM f l1) as [ys|e]; simpl; [|reflexivity].
    destruct (mapM f l2); reflexivity.
Qed.

Lemma mapM_Forall2 {A B} (f : A -> result B) (l : list A) (vs : list B) :
  mapM f l = Ok vs <-> Forall2 (fun a v => f a = Ok v) l vs.
Proof.
  revert vs; induction l as [|a l IH]; intros vs; simpl; split; intros E.
  - injection E as <-. constructor.
  - inversion E; reflexivity.
  - apply rbind_ok in E as (b & Eb & E).
    apply rbind_ok in E as (bs & Ebs & E). injection E as <-.
    constructor; [assumption | apply IH; assumption].
  - inversion E as [|? v ? vs' Ea El]; subst.
    rewrite Ea; simpl. apply IH in El. rewrite El. reflexivity.
Qed.

(** Appending bound pairs one constraint after the other. *)
Lemma fold_append_bounds (cs : list (constraint R)) acc :
  fold_left append_bounds cs acc
  = (fst acc ++ map (@lb_of R) cs, snd acc ++ map (@ub_of R) cs).
Proof.
  revert acc; induction cs as [|c cs IH]; intros [l u]; simpl.
  - now rewrite !app_nil_r.
  - rewrite IH. destruct c as [[[t f] lb] ub]; simpl.
    now rewrite <- !app_assoc.
Qed.

Lemma fold_time_bounds (time : vec R) (cs : list (constraint R)) acc :
  fold_left (fun acc (_ : R) => fold_left append_bounds cs acc) time acc
  = (fst acc ++ concat (repeat (map (@lb_of R) cs) (length time)),
     snd acc ++ concat (repeat (map (@ub_of R) cs) (length time))).
Proof.
  revert acc; induction time as [|t time IH]; intros [l u]; simpl.
  - now rewrite !app_nil_r.
  - rewrite fold_append_bounds, IH. simpl. now rewrite <- !app_assoc.
Qed.

Lemma stack_bounds_eq (time : vec R) (traj term : list (constraint R)) :
  stack_bounds time traj term
  = (concat (repeat (map (@lb_of R) traj) (length time))
     ++ map (@lb_of R) term,
     concat (repeat (map (@ub_of R) traj) (length time))
     ++ map (@ub_of R) term).
Proof.
  unfold stack_bounds. rewrite fold_time_bounds, fold_append_bounds.
  reflexivity.
Qed.

Lemma np_hstack_ok (l : list (vec R)) :
  l <> [] -> np_hstack l = Ok (concat l).
Proof. destruct l; [congruence | reflexivity]. Qed.

Lemma segments_nonempty {A} (xs ys : list A) (n : nat) :
  n * length xs + length ys <> 0 ->
  concat (repeat xs n) ++ ys <> [].
Proof.
  intros Hn E. apply app_eq_nil in E as [E ->].
  destruct n as [|n]; simpl in *; [lia|].
  apply app_eq_nil in E as [-> _]. simpl in Hn. lia.
Qed.

(** Gluing a zero block to the right or to the left of a matrix. *)
Lemma glue_rows_right (l : list (vec R)) (z : vec R) :
  map (fun p => fst p ++ snd p) (combine l (repeat z (length l)))
  = map (fun r => r ++ z) l.
Proof. induction l as [|r l IH]; simpl; [reflexivity | now rewrite IH]. Qed.

Lemma glue_rows_left (l : list (vec R)) (z : vec R) :
  map (fun p => fst p ++ snd p) (combine (repeat z (length l)) l)
  = map (fun r => z ++ r) l.
Proof. induction l as [|r l IH]; simpl; [reflexivity | now rewrite IH]. Qed.

End LoopFacts.

(** ** Construction *)

Section Construction.
Context {R : Type} `{Scalar R}.

(** C2. Whenever there is at least one bound to stack (some trajectory
    constraint over a non-empty grid, or some terminal constraint), the
    constructor succeeds and the stacked lower bound is the flattening of
    [[c1.lb, ..., cm.lb]] repeated once per time point followed by
    [[t1.lb, ..., tp.lb]] once; likewise for the upper bound. *)
Theorem init_stacks_bounds
        (sys : InputOutputSystem R) (time : vec R)
        (cost : vec R -> vec R -> R) (traj : list (constraint R))
        (tcost : option (vec R -> vec R -> R)) (term : list (constraint R)) :
  length time * length traj + length term <> 0 ->
  exists self,
    __init__ sys time cost traj tcost term = Ok self
    /\ constraint_lb self
       = concat (concat (repeat (map (@lb_of R) traj) (length time))
                 ++ map (@lb_of R) term)
    /\ constraint_ub self
       = concat (concat (repeat (map (@ub_of R) traj) (length time))
                 ++ map (@ub_of R) term).
Proof.
  intros Hne. unfold __init__. rewrite stack_bounds_eq.
  rewrite !np_hstack_ok by
      (apply segments_nonempty; rewrite ?length_map; exact Hne).
  simpl. eexists; repeat split.
Qed.

(** C10. With both constraint lists empty the constructor raises the
    error of [np.hstack] on an empty list, whatever the plant, the time
    grid and the costs; so a construction that succeeds was given at
    least one constraint descriptor. *)
Theorem init_unconstrained_raises
        (sys : InputOutputSystem R) (time : vec R)
        (cost : vec R -> vec R -> R)
        (tcost : option (vec R -> vec R -> R)) :
  __init__ sys time cost [] tcost [] = Raise ValueError_concatenate
  /\ forall traj term self,
      __init__ sys time cost traj tcost term = Ok self ->
      traj <> [] \/ term <> [].
Proof.
  assert (E : __init__ sys time cost [] tcost [] = Raise ValueError_concatenate).
  { unfold __init__. rewrite stack_bounds_eq. simpl.
    replace (concat (repeat (@nil (vec R)) (length time))) with (@nil (vec R)).
    - reflexivity.
    - induction (length time) as [|n IH]; simpl; [reflexivity | exact IH]. }
  split; [exact E|].
  intros [|c traj] term self Hinit; [|left; discriminate].
  destruct term as [|t term]; [|right; discriminate].
  rewrite E in Hinit. discriminate.
Qed.

(** C7. [state_poly_constraint] returns the linear descriptor with
    matrix [[A | 0]] (zero block of width [ninputs]), lower bound
    [-inf] in every component and upper bound [b];
    [input_poly_constraint] returns the one with matrix [[0 | A]] (zero
    block of width [nstates]) and the same bounds. *)
Theorem poly_constraints_pad
        (sys : InputOutputSystem R) (polytope : Polytope R) :
  state_poly_constraint sys polytope
  = Ok (LinearConstraint,
        Matrix (pad_right (poly_A polytope) (ninputs sys)),
        repeat neg_inf (shape0 (poly_A polytope)),
        poly_b polytope)
  /\ input_poly_constraint sys polytope
     = Ok (LinearConstraint,
           Matrix (pad_left (nstates sys) (poly_A polytope)),
           repeat neg_inf (shape0 (poly_A polytope)),
           poly_b polytope).
Proof.
  unfold state_poly_constraint, input_poly_constraint, np_hstack2.
  simpl. unfold glue, np_zeros2, shape0; simpl.
  rewrite !repeat_length, !Nat.eqb_refl. simpl.
  unfold pad_right, pad_left, np_full, np_zeros, shape0.
  rewrite glue_rows_right, glue_rows_left. split; reflexivity.
Qed.

End Construction.

(** ** Cost evaluation *)

Section Evaluation.
Context {R : Type} `{Scalar R}.
Variable input_output_response :
  InputOutputSystem R -> vec R -> ndarray2 R -> vec R -> ndarray2 R.

Lemma reshape_shape1 (v : vec R) (r c : nat) (a : ndarray2 R) :
  reshape v r c = Ok a -> shape1 a = c.
Proof.
  unfold reshape. destruct (length v =? r * c); [|discriminate].
  intros E; injection E as <-. reflexivity.
Qed.

Lemma col_ok (a : ndarray2 R) (k : nat) :
  k < shape1 a -> col a k = Ok (column a k).
Proof.
  intros Hk. unfold col. apply Nat.ltb_lt in Hk. now rewrite Hk.
Qed.

Lemma col_last_ok (a : ndarray2 R) :
  0 < shape1 a -> col_last a = Ok (column a (shape1 a - 1)).
Proof.
  unfold col_last. destruct (shape1 a) as [|n]; [lia|].
  intros _. simpl. now rewrite Nat.sub_0_r.
Qed.

(** The trajectory-cost loop, started at index [a] with cost [c0]. *)
Lemma cost_loop (g : vec R -> vec R -> R) (states inputs : ndarray2 R)
      (time : vec R) (a : nat) (c0 : R) :
  a + length time <= shape1 states ->
  a + length time <= shape1 inputs ->
  for_each (combine (seq a (length time)) time)
    (fun '(i, _) cost =>
       let? s := col states i in
       let? u := col inputs i in
       Ok (add cost (g s u)))
    c0
  = Ok (fold_left add
          (map (fun k => g (column states k) (column inputs k))
               (seq a (length time)))
          c0).
Proof.
  revert a c0; induction time as [|t time IH]; intros a c0 Hs Hu; simpl in *.
  - reflexivity.
  - rewrite !col_ok by lia. simpl. apply IH; lia.
Qed.

(** C4. With only a running cost, [cost_function] returns the sum, over
    the [N] time points, of the running cost at the simulated state and
    the input of that point; with a terminal cost configured it returns
    that sum plus the terminal cost at the state and input of index
    [N - 1]. *)
Theorem cost_function_additive
        (self : OptimalControlProblem R) (x0 inputs : vec R)
        (U : ndarray2 R) (log : list string) :
  x self = Some x0 ->
  reshape inputs (ninputs (system self)) (length (time_vector self)) = Ok U ->
  shape1 (input_output_response (system self) (time_vector self) U x0)
  = length (time_vector self) ->
  let X := input_output_response (system self) (time_vector self) U x0 in
  let N := length (time_vector self) in
  let w := {| self_ := self; warnings := log |} in
  (terminal_cost self = None ->
   cost_function input_output_response inputs w
   = (Ok (running_cost_sum self X U), w))
  /\ (forall terminal,
        terminal_cost self = Some terminal ->
        0 < N ->
        cost_function input_output_response inputs w
        = (Ok (add (running_cost_sum self X U)
                   (terminal (column X (N - 1)) (column U (N - 1)))), w)).
Proof.
  intros Hx HU HX X N w.
  pose proof (reshape_shape1 _ _ _ HU) as HU1.
  assert (Hloop :
    for_each (enumerate (time_vector self))
      (fun '(i, _) cost =>
         let? s := col X i in
         let? u := col U i in
         Ok (add cost (integral_cost self s u)))
      zero
    = Ok (running_cost_sum self X U)).
  { unfold enumerate, running_cost_sum.
    apply cost_loop; [subst X; rewrite HX | rewrite HU1]; simpl; lia. }
  split.
  - intros Hnone. subst w.
    unfold cost_function, bind, getattr_x, get_self, lift.
    simpl. rewrite Hx. simpl. rewrite HU. simpl. fold X.
    rewrite Hloop, Hnone. reflexivity.
  - intros terminal Hsome HN. subst w.
    unfold cost_function, bind, getattr_x, get_self, lift.
    simpl. rewrite Hx. simpl. rewrite HU. simpl. fold X.
    rewrite Hloop, Hsome.
    rewrite !col_last_ok by (subst X; rewrite ?HX, ?HU1; exact HN).
    subst X. rewrite HX, HU1. reflexivity.
Qed.

End Evaluation.

(** ** Constraint evaluation *)

Section ConstraintLoops.
Context {R : Type} `{Scalar R}.

(** The inner loop appends one value per constraint and leaves [i]
    alone. *)
Lemma evaluate_all_mapM (states inputs : ndarray2 R)
      (cs : list (constraint R)) (i : option nat) (value : list (vec R)) :
  evaluate_all states inputs cs (i, value)
  = let? vs := mapM (evaluate states inputs i) cs in Ok (i, value ++ vs).
Proof.
  unfold evaluate_all.
  revert value; induction cs as [|c cs IH]; intros value; simpl.
  - now rewrite app_nil_r.
  - destruct (evaluate states inputs i c) as [v|e]; simpl; [|reflexivity].
    rewrite IH. destruct (mapM (evaluate states inputs i) cs); simpl;
      [now rewrite <- app_assoc | reflexivity].
Qed.

Lemma mapM_slots (states inputs : ndarray2 R)
      (cs : list (constraint R)) (k : nat) :
  mapM (fun kc => evaluate states inputs (Some (fst kc)) (snd kc))
       (map (pair k) cs)
  = mapM (evaluate states inputs (Some k)) cs.
Proof.
  induction cs as [|c cs IH]; simpl; [reflexivity | now rewrite IH].
Qed.

Lemma trajectory_loop (states inputs : ndarray2 R)
      (traj : list (constraint R)) (time : vec R)
      (a : nat) (i0 : option nat) (value : list (vec R)) :
  for_each (combine (seq a (length time)) time)
    (fun '(i, _) l => evaluate_all states inputs traj (Some i, snd l))
    (i0, value)
  = let? vs :=
      mapM (fun kc => evaluate states inputs (Some (fst kc)) (snd kc))
           (flat_map (fun k => map (pair k) traj) (seq a (length time))) in
    Ok (leftover a time i0, value ++ vs).
Proof.
  revert a i0 value; induction time as [|t time IH]; intros a i0 value.
  - simpl. now rewrite app_nil_r.
  - cbn [length seq combine for_each flat_map]. rewrite mapM_app, mapM_slots.
    cbn [fst snd]. rewrite evaluate_all_mapM.
    destruct (mapM (evaluate states inputs (Some a)) traj) as [v1|e];
      cbn [rbind]; [|reflexivity].
    rewrite IH.
    destruct (mapM _ (flat_map _ (seq (S a) (length time)))) as [v2|e];
      cbn [rbind]; [|reflexivity].
    rewrite <- app_assoc. f_equal. f_equal.
    unfold leftover. destruct time; simpl; f_equal; lia.
Qed.

(** Both loops of [constraint_function] in one equation. *)
Lemma constraint_values_loops (self : OptimalControlProblem R)
      (states inputs : ndarray2 R) :
  constraint_values self states inputs
  = let N := length (time_vector self) in
    let? along :=
      mapM (fun kc => evaluate states inputs (Some (fst kc)) (snd kc))
           (flat_map (fun k => map (pair k) (trajectory_constraints self))
                     (seq 0 N)) in
    let? final :=
      mapM (evaluate states inputs (leftover 0 (time_vector self) None))
           (terminal_constraints self) in
    Ok (along ++ final).
Proof.
  unfold constraint_values, enumerate. rewrite trajectory_loop.
  cbn zeta. destruct (mapM _ (flat_map _ _)) as [along|e];
    cbn [rbind]; [|reflexivity].
  rewrite evaluate_all_mapM.
  destruct (mapM _ (terminal_constraints self)); reflexivity.
Qed.

Lemma constraint_values_refines (self : OptimalControlProblem R)
      (states inputs : ndarray2 R) :
  time_vector self <> [] ->
  constraint_values self states inputs
  = constraint_values_spec self states inputs.
Proof.
  intros Hne. rewrite constraint_values_loops. unfold constraint_values_spec.
  destruct (time_vector self); [congruence | reflexivity].
Qed.

Lemma mapM_length {A B} (f : A -> result B) (l : list A) (vs : list B) :
  mapM f l = Ok vs -> length vs = length l.
Proof.
  intros E. apply mapM_Forall2 in E.
  symmetry. eapply Forall2_length; eassumption.
Qed.

Lemma slots_length {A} (cs : list A) (a n : nat) :
  length (flat_map (fun k => map (pair k) cs) (seq a n)) = n * length cs.
Proof.
  revert a; induction n as [|n IH]; intros a; simpl; [reflexivity|].
  now rewrite length_app, length_map, IH.
Qed.

End ConstraintLoops.

Section ConstraintFunction.
Context {R : Type} `{Scalar R}.
Variable input_output_response :
  InputOutputSystem R -> vec R -> ndarray2 R -> vec R -> ndarray2 R.

(** [constraint_function] once the initial state is stored and the
    reshape has gone through. *)
Lemma constraint_function_run
      (self : OptimalControlProblem R) (x0 inputs : vec R)
      (U : ndarray2 R) (log : list string) :
  x self = Some x0 ->
  reshape inputs (ninputs (system self)) (length (time_vector self)) = Ok U ->
  constraint_function input_output_response inputs
                      {| self_ := self; warnings := log |}
  = (let? value :=
       constraint_values self
         (input_output_response (system self) (time_vector self) U x0) U in
     np_hstack value,
     {| self_ := self; warnings := log |}).
Proof.
  intros Hx HU. unfold constraint_function, bind, getattr_x, get_self, lift.
  simpl. rewrite Hx. simpl. rewrite HU. simpl.
  destruct (constraint_values self _ U); reflexivity.
Qed.

(** C5. Over a non-empty time grid, [constraint_function] computes what
    the explicit-index reading computes: after the values of the
    trajectory constraints, one value per terminal constraint, each
    evaluated at the concatenated (state, input) vector of index
    [N - 1]. *)
Theorem terminal_constraints_at_final_point
        (self : OptimalControlProblem R) (x0 inputs : vec R)
        (U : ndarray2 R) (log : list string) :
  x self = Some x0 ->
  reshape inputs (ninputs (system self)) (length (time_vector self)) = Ok U ->
  time_vector self <> [] ->
  let X := input_output_response (system self) (time_vector self) U x0 in
  let N := length (time_vector self) in
  let w := {| self_ := self; warnings := log |} in
  constraint_function input_output_response inputs w
  = (let? value := constraint_values_spec self X U in np_hstack value, w)
  /\ forall v,
      fst (constraint_function input_output_response inputs w) = Ok v ->
      exists along final,
        v = concat along ++ concat final
        /\ length along = N * length (trajectory_constraints self)
        /\ Forall2 (fun kc y => evaluate X U (Some (fst kc)) (snd kc) = Ok y)
                   (flat_map (fun k => map (pair k) (trajectory_constraints self))
                             (seq 0 N))
                   along
        /\ Forall2 (fun c y => evaluate X U (Some (N - 1)) c = Ok y)
                   (terminal_constraints self) final.
Proof.
  intros Hx HU Hne X N w. subst w.
  rewrite (constraint_function_run _ _ log Hx HU). fold X.
  rewrite (constraint_values_refines _ _ _ Hne).
  split; [reflexivity|].
  intros v Hv. cbn [fst] in Hv.
  apply rbind_ok in Hv as (value & Hvalue & Hv).
  unfold constraint_values_spec in Hvalue.
  apply rbind_ok in Hvalue as (along & Halong & Hvalue).
  apply rbind_ok in Hvalue as (final & Hfinal & Hvalue).
  injection Hvalue as <-.
  exists along, final. repeat split.
  - unfold np_hstack in Hv.
    destruct (along ++ final) eqn:E; [discriminate|].
    injection Hv as <-.
    change (concat (v0 :: l) = concat along ++ concat final).
    rewrite <- E. apply concat_app.
  - apply mapM_length in Halong. rewrite slots_length in Halong.
    exact Halong.
  - apply mapM_Forall2. exact Halong.
  - apply mapM_Forall2. exact Hfinal.
Qed.

End ConstraintFunction.

(** ** Evaluation order against stacking order *)

Section StackingOrder.
Context {R : Type} `{Scalar R}.
Variable input_output_response :
  InputOutputSystem R -> vec R -> ndarray2 R -> vec R -> ndarray2 R.

Lemma evaluate_contribution (states inputs : ndarray2 R) (k : nat)
      (c : constraint R) :
  k < shape1 states -> k < shape1 inputs ->
  evaluate states inputs (Some k) c = contribution c (point states inputs k).
Proof.
  intros Hs Hu. destruct c as [[[t f] lb] ub].
  unfold evaluate, contribution, stacked, point.
  rewrite !col_ok by assumption. simpl. rewrite app_nil_r.
  destruct t, f; reflexivity.
Qed.

Lemma spec_over_stacking_order (self : OptimalControlProblem R)
      (states inputs : ndarray2 R) :
  constraint_values_spec self states inputs
  = mapM (fun kc => evaluate states inputs (Some (fst kc)) (snd kc))
         (stacking_order (time_vector self) (trajectory_constraints self)
                         (terminal_constraints self)).
Proof.
  unfold constraint_values_spec, stacking_order.
  cbn zeta. rewrite mapM_app, mapM_slots. reflexivity.
Qed.

Lemma stacking_order_in_grid (time : vec R) (traj term : list (constraint R)) :
  time <> [] ->
  Forall (fun kc => fst kc < length time) (stacking_order time traj term).
Proof.
  intros Hne.
  assert (0 < length time) by (destruct time; simpl; [congruence | lia]).
  unfold stacking_order. apply Forall_app; split.
  - apply Forall_forall. intros [k c] Hin.
    apply in_flat_map in Hin as (k' & Hk' & Hin).
    apply in_map_iff in Hin as (c' & E & _). injection E as <- <-.
    apply in_seq in Hk'. simpl. lia.
  - apply Forall_forall. intros [k c] Hin.
    apply in_map_iff in Hin as (c' & E & _). injection E as <- <-.
    simpl. lia.
Qed.

Lemma stacking_order_segments {B} (f : constraint R -> B) (time : vec R)
      (traj term : list (constraint R)) :
  map (fun kc => f (snd kc)) (stacking_order time traj term)
  = concat (repeat (map f traj) (length time)) ++ map f term.
Proof.
  unfold stacking_order. rewrite map_app, map_map. simpl. f_equal.
  generalize 0 as a. induction (length time) as [|n IH]; intros a; simpl.
  - reflexivity.
  - rewrite map_app, map_map, IH. reflexivity.
Qed.

Lemma combine_concat {A B} (xs : list (list A)) (ys : list (list B)) :
  Forall2 (fun a b => length a = length b) xs ys ->
  combine (concat xs) (concat ys)
  = concat (map (fun p => combine (fst p) (snd p)) (combine xs ys)).
Proof.
  induction 1 as [|a b xs ys Hab _ IH]; simpl; [reflexivity|].
  rewrite <- IH. clear IH.
  revert b Hab; induction a as [|a0 a IHa]; intros [|b0 b] Hab;
    simpl in *; try discriminate; [reflexivity|].
  f_equal. apply IHa. lia.
Qed.

(** What a successful construction leaves in the instance. *)
Lemma init_inv (sys : InputOutputSystem R) (time : vec R)
      (cost : vec R -> vec R -> R) (traj : list (constraint R))
      (tcost : option (vec R -> vec R -> R)) (term : list (constraint R))
      (self : OptimalControlProblem R) :
  __init__ sys time cost traj tcost term = Ok self ->
  stacking_order time traj term <> []
  /\ self
     = {| system := sys;
          time_vector := time;
          integral_cost := cost;
          trajectory_constraints := traj;
          terminal_cost := tcost;
          terminal_constraints := term;
          constraint_lb :=
            concat (map (fun kc => lb_of (snd kc))
                        (stacking_order time traj term));
          constraint_ub :=
            concat (map (fun kc => ub_of (snd kc))
                        (stacking_order time traj term));
          constraints :=
            {| nc_fun := self_constraint_function;
               nc_lb := concat (map (fun kc => lb_of (snd kc))
                                    (stacking_order time traj term));
               nc_ub := concat (map (fun kc => ub_of (snd kc))
                                    (stacking_order time traj term)) |};
          initial_guess := np_zeros (ninputs sys * length time);
          x := None |}.
Proof.
  unfold __init__. rewrite stack_bounds_eq.
  rewrite <- !(stacking_order_segments _ time traj term).
  destruct (stacking_order time traj term) as [|kc order]; simpl;
    [discriminate|].
  intros E; injection E as <-. split; [discriminate | reflexivity].
Qed.

(** C1. For a constructed problem over a non-empty grid, [constraint_function]
    returns the concatenation of the per-slot contributions in the
    stacking order (time-point-major, then constraint-list order,
    terminal constraints last): [np.dot(A, [x_k; u_k])] for a linear
    descriptor, the evaluator applied to [[x_k; u_k]] for a nonlinear
    one.  The stacked bounds are the concatenation of the bounds of the
    same slots, so that, when every slot's value is as long as its
    bounds, values and bounds pair up element for element. *)
Theorem constraint_function_follows_stacking
        (sys : InputOutputSystem R) (time : vec R)
        (cost : vec R -> vec R -> R) (traj : list (constraint R))
        (tcost : option (vec R -> vec R -> R)) (term : list (constraint R))
        (self : OptimalControlProblem R) (x0 inputs : vec R)
        (U : ndarray2 R) (vals : list (vec R)) (log : list string) :
  __init__ sys time cost traj tcost term = Ok self ->
  time <> [] ->
  reshape inputs (ninputs sys) (length time) = Ok U ->
  shape1 (input_output_response sys time U x0) = length time ->
  Forall2 (fun kc v =>
             contribution (snd kc)
               (point (input_output_response sys time U x0) U (fst kc))
             = Ok v)
          (stacking_order time traj term) vals ->
  let order := stacking_order time traj term in
  let w := {| self_ := with_x self x0; warnings := log |} in
  constraint_function input_output_response inputs w = (Ok (concat vals), w)
  /\ constraint_lb self = concat (map (fun kc => lb_of (snd kc)) order)
  /\ constraint_ub self = concat (map (fun kc => ub_of (snd kc)) order)
  /\ (Forall2 (fun kc v => length v = length (lb_of (snd kc))
                           /\ length v = length (ub_of (snd kc)))
              order vals ->
      combine (concat vals) (constraint_lb self)
      = concat (map (fun p => combine (snd p) (lb_of (snd (fst p))))
                    (combine order vals))
      /\ combine (concat vals) (constraint_ub self)
         = concat (map (fun p => combine (snd p) (ub_of (snd (fst p))))
                       (combine order vals))).
Proof.
  intros Hinit Hne HU HX Hvals order w.
  apply init_inv in Hinit as (Horder & ->). fold order in Horder |- *.
  pose proof (reshape_shape1 _ _ _ HU) as HU1.
  split; [|split; [reflexivity | split; [reflexivity|]]].
  - subst w. erewrite constraint_function_run; [|reflexivity|exact HU].
    cbn [system time_vector with_x].
    rewrite constraint_values_refines by exact Hne.
    rewrite spec_over_stacking_order.
    cbn [time_vector trajectory_constraints terminal_constraints with_x].
    fold order.
    assert (E : mapM (fun kc => evaluate (input_output_response sys time U x0)
                                         U (Some (fst kc)) (snd kc)) order
                = Ok vals).
    { apply mapM_Forall2.
      pose proof (stacking_order_in_grid traj term Hne) as Hgrid.
      fold order in Hgrid, Hvals. clearbody order. clear Horder.
      induction Hvals as [|kc v order vals Hkc _ IH]; constructor.
      - inversion Hgrid; subst.
        rewrite evaluate_contribution by (rewrite ?HX, ?HU1; assumption).
        exact Hkc.
      - apply IH; inversion Hgrid; assumption. }
    rewrite E. cbn [rbind]. rewrite np_hstack_ok; [reflexivity|].
    intros ->. apply Forall2_length in Hvals. fold order in Hvals.
    destruct order; [congruence | discriminate].
  - intros Hdims. cbn [constraint_lb constraint_ub].
    clearbody order. clear -Hdims. split.
    + rewrite combine_concat.
      * f_equal. clear Hdims. revert vals.
        induction order as [|kc order IH]; intros [|v vals]; simpl;
          try reflexivity.
        f_equal. apply IH.
      * clear -Hdims. induction Hdims as [|kc v order vals [Hl _] _ IH];
          simpl; constructor; assumption.
    + rewrite combine_concat.
      * f_equal. clear Hdims. revert vals.
        induction order as [|kc order IH]; intros [|v vals]; simpl;
          try reflexivity.
        f_equal. apply IH.
      * clear -Hdims. induction Hdims as [|kc v order vals [_ Hu] _ IH];
          simpl; constructor; assumption.
Qed.

End StackingOrder.

(** ** Unknown constraint types *)

Section UnknownKind.
Context {R : Type} `{Scalar R}.
Variable input_output_response :
  InputOutputSystem R -> vec R -> ndarray2 R -> vec R -> ndarray2 R.

Lemma mapM_raise {A B} (f : A -> result B) (pre post : list A) (c : A)
      (e : exception) :
  Forall (fun a => exists v, f a = Ok v) pre ->
  f c = Raise e ->
  mapM f (pre ++ c :: post) = Raise e.
Proof.
  intros Hpre Hc. induction Hpre as [|a pre (v & Ha) _ IH]; simpl.
  - now rewrite Hc.
  - now rewrite Ha, IH.
Qed.

Lemma evaluate_unknown (states inputs : ndarray2 R) (i : option nat)
      (c : constraint R) (n : string) :
  ctype_of c = OtherType n ->
  evaluate states inputs i c
  = Raise (TypeError_unknown_constraint (OtherType n)).
Proof.
  destruct c as [[[t f] lb] ub]. unfold ctype_of; simpl. now intros ->.
Qed.

Lemma mapM_never {A B} (P : exception -> Prop) (f : A -> result B)
      (l : list A) :
  Forall (fun a => forall e, f a = Raise e -> P e) l ->
  forall e, mapM f l = Raise e -> P e.
Proof.
  induction 1 as [|a l Ha _ IH]; simpl; intros e E; [discriminate|].
  destruct (f a) as [b|e'] eqn:Ea; simpl in E.
  - destruct (mapM f l) as [bs|e'']; simpl in E; [discriminate|].
    injection E as <-. now apply IH.
  - injection E as <-. now apply Ha.
Qed.

Lemma stacked_known (states inputs : ndarray2 R) (i : option nat) e :
  stacked states inputs i = Raise e -> known e.
Proof.
  unfold stacked, col. destruct i as [k|]; [|intros [= <-] t; discriminate].
  destruct (k <? shape1 states); simpl; [|intros [= <-] t; discriminate].
  destruct (k <? shape1 inputs); simpl; [discriminate|].
  intros [= <-] t; discriminate.
Qed.

Lemma np_dot_known (a : ndarray2 R) (v : vec R) e :
  np_dot a v = Raise e -> known e.
Proof.
  unfold np_dot. destruct (shape1 a =? length v); [discriminate|].
  intros [= <-] t; discriminate.
Qed.

(** The two polytope factories always succeed, with a linear
    descriptor carrying a matrix. *)
Lemma poly_constraints_linear (sys : InputOutputSystem R)
      (polytope : Polytope R) (c : constraint R) :
  state_poly_constraint sys polytope = Ok c \/
  input_poly_constraint sys polytope = Ok c ->
  exists a lb ub, c = (LinearConstraint, Matrix a, lb, ub).
Proof.
  unfold state_poly_constraint, input_poly_constraint, np_hstack2.
  simpl. unfold glue, np_zeros2, shape0; simpl.
  rewrite !repeat_length, !Nat.eqb_refl. simpl.
  intros [E | E]; injection E as <-; eauto.
Qed.

Lemma factory_known (states inputs : ndarray2 R) (i : option nat)
      (c : constraint R) e :
  from_factory c -> evaluate states inputs i c = Raise e -> known e.
Proof.
  intros (sys & polytope & Hc).
  assert (Hc' : (state_poly_constraint sys polytope = Ok c \/
                 input_poly_constraint sys polytope = Ok c) \/
                output_poly_constraint sys polytope = c) by tauto.
  clear Hc. destruct Hc' as [Hc | Hc].
  - apply poly_constraints_linear in Hc as (a & lb & ub & ->). simpl.
    destruct (stacked states inputs i) as [v|e'] eqn:Ev; simpl.
    + apply np_dot_known.
    + intros [= <-]. eapply stacked_known; eassumption.
  - subst c. unfold output_poly_constraint. simpl.
    destruct (stacked states inputs i) as [v|e'] eqn:Ev; simpl.
    + apply np_dot_known.
    + intros [= <-]. eapply stacked_known; eassumption.
Qed.

(** C8. [constraint_function] raises the unknown-constraint-type error
    as soon as evaluation reaches a descriptor whose type is neither
    [LinearConstraint] nor [NonlinearConstraint]: a trajectory
    constraint (reached at the first time point once the constraints
    before it have been evaluated) or a terminal constraint (reached
    once the trajectory loop and the terminal constraints before it
    have been evaluated).  When every descriptor comes from the
    factories, that error is never raised. *)
Theorem unknown_constraint_type :
  (forall (self : OptimalControlProblem R) (x0 inputs : vec R)
          (U : ndarray2 R) (log : list string)
          (pre post : list (constraint R)) (c : constraint R) (n : string),
      x self = Some x0 ->
      reshape inputs (ninputs (system self)) (length (time_vector self))
      = Ok U ->
      time_vector self <> [] ->
      trajectory_constraints self = pre ++ c :: post ->
      ctype_of c = OtherType n ->
      Forall (fun c' =>
                exists v,
                  evaluate
                    (input_output_response (system self) (time_vector self)
                                           U x0)
                    U (Some 0) c' = Ok v) pre ->
      constraint_function input_output_response inputs
                          {| self_ := self; warnings := log |}
      = (Raise (TypeError_unknown_constraint (OtherType n)),
         {| self_ := self; warnings := log |}))
  /\ (forall (self : OptimalControlProblem R) (x0 inputs : vec R)
             (U : ndarray2 R) (log : list string) (along : list (vec R))
             (pre post : list (constraint R)) (c : constraint R) (n : string),
         x self = Some x0 ->
         reshape inputs (ninputs (system self)) (length (time_vector self))
         = Ok U ->
         mapM (fun kc =>
                 evaluate
                   (input_output_response (system self) (time_vector self)
                                          U x0)
                   U (Some (fst kc)) (snd kc))
              (flat_map (fun k => map (pair k) (trajectory_constraints self))
                        (seq 0 (length (time_vector self))))
         = Ok along ->
         terminal_constraints self = pre ++ c :: post ->
         ctype_of c = OtherType n ->
         Forall (fun c' =>
                   exists v,
                     evaluate
                       (input_output_response (system self)
                                              (time_vector self) U x0)
                       U (leftover 0 (time_vector self) None) c' = Ok v)
                pre ->
         constraint_function input_output_response inputs
                             {| self_ := self; warnings := log |}
         = (Raise (TypeError_unknown_constraint (OtherType n)),
            {| self_ := self; warnings := log |}))
  /\ (forall (self : OptimalControlProblem R) (inputs : vec R)
             (log : list string) (t : ctype),
         Forall from_factory
                (trajectory_constraints self ++ terminal_constraints self) ->
         fst (constraint_function input_output_response inputs
                                  {| self_ := self; warnings := log |})
         <> Raise (TypeError_unknown_constraint t)).
Proof.
  split; [|split].
  - intros self x0 inputs U log pre post c n Hx HU Hne Htraj Hc Hpre.
    rewrite (constraint_function_run input_output_response _ _ log Hx HU).
    rewrite constraint_values_loops. cbn zeta.
    destruct (time_vector self) as [|t0 time] eqn:Et; [congruence|].
    cbn [length seq flat_map]. rewrite mapM_app, mapM_slots, Htraj.
    erewrite mapM_raise;
      [reflexivity | exact Hpre | apply evaluate_unknown; exact Hc].
  - intros self x0 inputs U log along pre post c n Hx HU Halong Hterm Hc Hpre.
    rewrite (constraint_function_run input_output_response _ _ log Hx HU).
    rewrite constraint_values_loops. cbn zeta.
    rewrite Halong. cbn [rbind]. rewrite Hterm.
    erewrite mapM_raise;
      [reflexivity | exact Hpre | apply evaluate_unknown; exact Hc].
  - intros self inputs log t Hfac E.
    apply Forall_app in Hfac as [Htraj Hterm].
    unfold constraint_function, bind, getattr_x, get_self, lift in E.
    simpl in E.
    destruct (x self) as [x0|]; simpl in E; [|discriminate].
    unfold reshape in E.
    destruct (length inputs =? _); simpl in E; [|discriminate].
    match type of E with
    | context [constraint_values self ?X ?U] =>
        destruct (constraint_values self X U) as [value|e] eqn:Ev
    end; simpl in E.
    + destruct value; simpl in E; discriminate.
    + injection E as ->. rewrite constraint_values_loops in Ev.
      cbn zeta in Ev.
      match type of Ev with
      | context [mapM ?f (flat_map ?g ?l)] =>
          destruct (mapM f (flat_map g l)) as [along|e] eqn:Ea
      end; cbn [rbind] in Ev.
      * match type of Ev with
        | context [mapM ?f (terminal_constraints self)] =>
            destruct (mapM f (terminal_constraints self)) as [final|e] eqn:Ef
        end; cbn [rbind] in Ev; [discriminate|].
        injection Ev as ->.
        assert (Hk : known (TypeError_unknown_constraint t)).
        { eapply (mapM_never known); [|exact Ef].
          eapply Forall_impl; [|exact Hterm].
          intros c Hc e. apply factory_known. exact Hc. }
        exact (Hk t eq_refl).
      * injection Ev as ->.
        assert (Hk : known (TypeError_unknown_constraint t)).
        { eapply (mapM_never known); [|exact Ea].
          apply Forall_forall. intros [k c] Hin e.
          apply in_flat_map in Hin as (k' & _ & Hin).
          apply in_map_iff in Hin as (c' & [= <- <-] & Hin).
          apply factory_known.
          eapply Forall_forall in Htraj; eassumption. }
        exact (Hk t eq_refl).
Qed.

End UnknownKind.

(** ** Solving: [compute_trajectory], [mpc], [__call__] *)

Section Solve.
Context {R : Type} `{Scalar R}.
Variable input_output_response :
  InputOutputSystem R -> vec R -> ndarray2 R -> vec R -> ndarray2 R.
Variable minimize :
  (vec R -> result R) -> vec R -> solver_constraint R -> OptimizeResult R.
Variable _process_time_response :
  InputOutputSystem R -> vec R -> ndarray2 R -> option (ndarray2 R) ->
  option bool -> option bool -> option bool -> response R.

Local Abbreviation compute_trajectory' :=
  (compute_trajectory input_output_response minimize _process_time_response).
Local Abbreviation mpc' :=
  (mpc input_output_response minimize _process_time_response).
Local Abbreviation solver_result' :=
  (solver_result input_output_response minimize).

Lemma compute_trajectory_failure (x0 : vec R)
      (squeeze transpose_ return_x : option bool) (w : world R) :
  success (solver_result' x0 w) = false ->
  compute_trajectory' x0 squeeze transpose_ return_x w
  = (Ok None,
     {| self_ := with_x (self_ w) x0;
        warnings := warnings w ++ [message (solver_result' x0 w)] |}).
Proof.
  intros Hfail.
  unfold compute_trajectory, bind, setattr_x, get_self, get_world.
  cbn [self_ warnings with_x constraints initial_guess].
  unfold solver_result, solving in Hfail. rewrite Hfail. reflexivity.
Qed.

Lemma compute_trajectory_success (x0 : vec R)
      (squeeze : option bool) (w : world R) (inputs : ndarray2 R) :
  success (solver_result' x0 w) = true ->
  reshape (res_x (solver_result' x0 w)) (ninputs (system (self_ w)))
          (length (time_vector (self_ w))) = Ok inputs ->
  compute_trajectory' x0 squeeze None None w
  = (Ok (Some (_process_time_response (system (self_ w))
                 (time_vector (self_ w)) inputs None None None squeeze)),
     solving x0 w).
Proof.
  intros Hok Hre.
  unfold compute_trajectory, bind, setattr_x, get_self, get_world, lift.
  cbn [self_ warnings with_x constraints initial_guess system time_vector].
  unfold solver_result, solving in Hok, Hre.
  rewrite Hok. cbn [negb]. rewrite Hre. reflexivity.
Qed.

Lemma row0_transpose (a : ndarray2 R) :
  0 < shape1 a -> row0 (transpose a) = Ok (column a 0).
Proof.
  unfold row0, transpose. destruct (shape1 a); [lia | reflexivity].
Qed.

Lemma mpc_of_compute_trajectory (x0 : vec R) (squeeze : option bool)
      (w w' : world R) (r : option (response R)) :
  compute_trajectory' x0 squeeze None None w = (Ok r, w') ->
  mpc' x0 squeeze w
  = match r with
    | None => (Raise TypeError_unpack_None, w')
    | Some (_, None) => (Ok None, w')
    | Some (_, Some a) =>
        match row0 (transpose a) with
        | Ok v => (Ok (Some v), w')
        | Raise e => (Raise e, w')
        end
    end.
Proof.
  intros E. unfold mpc, bind. rewrite E.
  destruct r as [[s [a|]]|]; reflexivity.
Qed.

(** When the solver reports failure, [mpc] unpacks the [None] that
    [compute_trajectory] returned. *)
Lemma mpc_failure (x0 : vec R) (squeeze : option bool) (w : world R) :
  success (solver_result' x0 w) = false ->
  mpc' x0 squeeze w
  = (Raise TypeError_unpack_None,
     {| self_ := with_x (self_ w) x0;
        warnings := warnings w ++ [message (solver_result' x0 w)] |}).
Proof.
  intros Hfail.
  now rewrite (mpc_of_compute_trajectory _ _ _
                 (compute_trajectory_failure _ squeeze None None _ Hfail)).
Qed.

(** *** What the methods leave of the instance *)

Ltac case_split :=
  repeat (match goal with
          | |- context [match ?t with _ => _ end] =>
              lazymatch t with
              | context [match _ with _ => _ end] => fail
              | _ => destruct t
              end
          end; simpl).

Lemma bind_reads_only {T U} (m : M R T) (k : T -> M R U) :
  reads_only m -> (forall t, reads_only (k t)) -> reads_only (bind m k).
Proof.
  intros Hm Hk w. unfold bind. specialize (Hm w).
  destruct (m w) as [[t|e] w']; simpl in Hm; subst w'; [apply Hk | reflexivity].
Qed.

Lemma lift_reads_only {T} (r : result T) : reads_only (R:=R) (lift r).
Proof. intros w; reflexivity. Qed.

Lemma ret_reads_only {T} (t : T) : reads_only (R:=R) (ret t).
Proof. intros w; reflexivity. Qed.

Lemma getattr_x_reads_only : reads_only (R:=R) getattr_x.
Proof. intros w. unfold getattr_x. destruct (x (self_ w)); reflexivity. Qed.

Lemma get_self_reads_only : reads_only (R:=R) get_self.
Proof. intros w; reflexivity. Qed.

Ltac reads :=
  repeat first
         [ apply getattr_x_reads_only
         | apply get_self_reads_only
         | apply lift_reads_only
         | apply ret_reads_only
         | apply bind_reads_only; [|intros ?]
         | progress cbn zeta ].

Lemma cost_function_frame (u : vec R) :
  reads_only (cost_function input_output_response u).
Proof.
  unfold cost_function. reads.
  destruct (terminal_cost _); reads.
Qed.

Lemma constraint_function_frame (u : vec R) :
  reads_only (constraint_function input_output_response u).
Proof. unfold constraint_function. reads. Qed.

Lemma compute_trajectory_frame (x0 : vec R)
      (squeeze transpose_ return_x : option bool) (w : world R) :
  self_ (snd (compute_trajectory' x0 squeeze transpose_ return_x w))
  = with_x (self_ w) x0.
Proof.
  unfold compute_trajectory, bind, setattr_x, get_self, get_world, lift,
    warn, ret.
  cbn [self_ warnings]. case_split; reflexivity.
Qed.

Lemma mpc_frame (x0 : vec R) (squeeze : option bool) (w : world R) :
  self_ (snd (mpc' x0 squeeze w)) = with_x (self_ w) x0.
Proof.
  pose proof (compute_trajectory_frame x0 squeeze None None w) as Hc.
  unfold mpc, bind.
  destruct (compute_trajectory' x0 squeeze None None w) as [[r|e] w'];
    cbn [snd] in Hc |- *; [|exact Hc].
  unfold raise, ret, lift. case_split; exact Hc.
Qed.

Lemma after_keeps_all_but_x (c : call) (w : world R) (v : vec R) :
  with_x (self_ (after input_output_response minimize
                       _process_time_response c w)) v
  = with_x (self_ w) v.
Proof.
  destruct c; cbn [after].
  - now rewrite cost_function_frame.
  - now rewrite constraint_function_frame.
  - now rewrite compute_trajectory_frame.
  - now rewrite mpc_frame.
Qed.

Lemma after_all_keeps_all_but_x (cs : list call) (w : world R) (v : vec R) :
  with_x (self_ (after_all input_output_response minimize
                           _process_time_response cs w)) v
  = with_x (self_ w) v.
Proof.
  unfold after_all. revert w; induction cs as [|c cs IH]; intros w; simpl.
  - reflexivity.
  - rewrite IH. apply after_keeps_all_but_x.
Qed.

Lemma column_first (a : ndarray2 R) : column a 0 = first_sample a.
Proof.
  unfold column, first_sample. apply map_ext.
  intros [|r0 r]; reflexivity.
Qed.

Lemma first_sample_entry (a : ndarray2 R) (i : nat) :
  i < shape0 a ->
  nth i (first_sample a) zero = nth 0 (nth i (rows a) []) zero.
Proof.
  unfold first_sample, shape0.
  revert i; induction (rows a) as [|r l IH]; intros i Hi; simpl in *;
    [lia|].
  destruct i as [|i]; [now destruct r | apply IH; lia].
Qed.

(** C6. When the optimization succeeds, [mpc x] returns the first time
    sample of the input trajectory that [compute_trajectory x] returns,
    whatever comes back in the state slot: one value per input, the
    value for input [i] being entry [(i, 0)] of the trajectory.  Calling
    the instance is calling [mpc]. *)
Theorem mpc_first_sample :
  (forall (w : world R) (x0 : vec R) (squeeze : option bool)
          (inputs : ndarray2 R) (s : option (ndarray2 R)) (a : ndarray2 R),
      success (solver_result' x0 w) = true ->
      reshape (res_x (solver_result' x0 w)) (ninputs (system (self_ w)))
              (length (time_vector (self_ w))) = Ok inputs ->
      _process_time_response (system (self_ w)) (time_vector (self_ w))
                             inputs None None None squeeze
      = (s, Some a) ->
      0 < shape1 a ->
      compute_trajectory' x0 squeeze None None w
      = (Ok (Some (s, Some a)), solving x0 w)
      /\ mpc' x0 squeeze w = (Ok (Some (first_sample a)), solving x0 w)
      /\ length (first_sample a) = shape0 a
      /\ forall i, i < shape0 a ->
                   nth i (first_sample a) zero
                   = nth 0 (nth i (rows a) []) zero)
  /\ (forall (w : world R) (x0 : vec R) (squeeze : option bool),
         __call__ input_output_response minimize _process_time_response
                  x0 squeeze w
         = mpc' x0 squeeze w).
Proof.
  split; [|reflexivity].
  intros w x0 squeeze inputs s a Hok Hre Hpack Ha.
  pose proof (compute_trajectory_success x0 squeeze w Hok Hre) as Hc.
  rewrite Hpack in Hc. split; [exact Hc|]. split; [|split].
  - rewrite (mpc_of_compute_trajectory _ _ _ Hc).
    rewrite row0_transpose by exact Ha. now rewrite column_first.
  - unfold first_sample, shape0. apply length_map.
  - intros i Hi. now apply first_sample_entry.
Qed.

(** C9. After a successful construction and any sequence of calls to
    [cost_function], [constraint_function], [compute_trajectory] and
    [mpc], the stacked bounds, the solver constraint object and the
    initial guess are those of the constructor (the guess being
    [ninputs * N] zeros), and the instance differs from the constructed
    one in [x] at most.  A cost or constraint evaluation changes
    nothing; [compute_trajectory] and [mpc] store the given state in
    [x] and change no other attribute, and the solver runs in the world
    where [x] is already stored, on the guess and the bounds of the
    constructor. *)
Theorem solve_frame
        (sys : InputOutputSystem R) (time : vec R)
        (cost : vec R -> vec R -> R) (traj : list (constraint R))
        (tcost : option (vec R -> vec R -> R)) (term : list (constraint R))
        (self0 : OptimalControlProblem R) (log : list string)
        (cs : list call) :
  __init__ sys time cost traj tcost term = Ok self0 ->
  let w := after_all input_output_response minimize _process_time_response
                     cs {| self_ := self0; warnings := log |} in
  (constraint_lb (self_ w) = constraint_lb self0
   /\ constraint_ub (self_ w) = constraint_ub self0
   /\ constraints (self_ w)
      = {| nc_fun := self_constraint_function;
           nc_lb := constraint_lb self0;
           nc_ub := constraint_ub self0 |}
   /\ initial_guess (self_ w) = repeat zero (ninputs sys * length time)
   /\ forall v, with_x (self_ w) v = with_x self0 v)
  /\ (forall u,
         snd (cost_function input_output_response u w) = w
         /\ snd (constraint_function input_output_response u w) = w)
  /\ (forall x0 squeeze transpose_ return_x,
         snd (compute_trajectory' x0 squeeze transpose_ return_x w)
         = (if success (solver_result' x0 w)
            then solving x0 w
            else {| self_ := with_x (self_ w) x0;
                    warnings :=
                      warnings w ++ [message (solver_result' x0 w)] |})
         /\ self_ (snd (mpc' x0 squeeze w)) = with_x (self_ w) x0
         /\ x (self_ (solving x0 w)) = Some x0
         /\ solver_result' x0 w
            = minimize
                (fun u => fst (cost_function input_output_response u
                                             (solving x0 w)))
                (repeat zero (ninputs sys * length time))
                (fun u => fst (constraint_function input_output_response u
                                                   (solving x0 w)),
                 constraint_lb self0, constraint_ub self0)).
Proof.
  intros Hinit w.
  pose proof (after_all_keeps_all_but_x cs
                {| self_ := self0; warnings := log |}) as Hkeep.
  fold w in Hkeep. cbn [self_] in Hkeep.
  apply init_inv in Hinit as (_ & Hself).
  assert (Hfield : forall {T} (f : OptimalControlProblem R -> T),
             (forall a v, f (with_x a v) = f a) ->
             f (self_ w) = f self0).
  { intros T f Hf. rewrite <- (Hf (self_ w) []), <- (Hf self0 []).
    now rewrite Hkeep. }
  split; [|split].
  - repeat split.
    + apply (Hfield _ (@constraint_lb R)); reflexivity.
    + apply (Hfield _ (@constraint_ub R)); reflexivity.
    + rewrite (Hfield _ (@constraints R)) by reflexivity.
      rewrite Hself. reflexivity.
    + rewrite (Hfield _ (@initial_guess R)) by reflexivity.
      rewrite Hself. reflexivity.
    + exact Hkeep.
  - intros u. split;
      [apply cost_function_frame | apply constraint_function_frame].
  - intros x0 squeeze transpose_ return_x. repeat split.
    + destruct (success (solver_result' x0 w)) eqn:Hs.
      * unfold compute_trajectory, bind, setattr_x, get_self, get_world,
          lift.
        cbn [self_ warnings with_x constraints initial_guess system
               time_vector].
        unfold solver_result, solving in Hs. rewrite Hs. cbn [negb].
        destruct (reshape _ _ _); reflexivity.
      * now rewrite (compute_trajectory_failure _ squeeze transpose_
                       return_x _ Hs).
    + apply mpc_frame.
    + unfold solver_result, resolve.
      rewrite (Hfield _ (@constraints R)), (Hfield _ (@initial_guess R))
        by reflexivity.
      rewrite Hself. reflexivity.
Qed.

End Solve.

(** * The properties on the integrator example *)

Section OnTheExample.
Import Example.

(** The record [problem] is what the constructor returns. *)
Lemma problem_constructed :
  __init__ sys time square_cost [state_bound; doubled] (Some square_cost)
           [input_bound]
  = Ok problem.
Proof. reflexivity. Qed.

Lemma init_stacks_bounds_witness :
  exists self,
    __init__ sys time square_cost [state_bound; doubled] (Some square_cost)
             [input_bound] = Ok self
    /\ constraint_lb self
       = [NegInf; NegInf; NegInf; NegInf; NegInf; NegInf; NegInf; NegInf;
          NegInf; NegInf]
    /\ constraint_ub self
       = [Fin 5; Fin 9; Fin 9; Fin 5; Fin 9; Fin 9; Fin 5; Fin 9; Fin 9;
          Fin 1].
Proof.
  apply (@init_stacks_bounds xint _ sys time square_cost
           [state_bound; doubled] (Some square_cost) [input_bound]).
  simpl. lia.
Defined.

Lemma init_unconstrained_raises_witness :
  __init__ sys time square_cost [] None [] = Raise ValueError_concatenate
  /\ ([state_bound; doubled] <> [] \/ [input_bound] <> []).
Proof.
  destruct (@init_unconstrained_raises xint _ sys time square_cost None)
    as [Hraise _].
  destruct (@init_unconstrained_raises xint _ sys time square_cost
              (Some square_cost))
    as [_ Hneeded].
  split; [exact Hraise|].
  exact (Hneeded [state_bound; doubled] [input_bound] problem
                 problem_constructed).
Defined.

Lemma constraint_function_follows_stacking_witness :
  constraint_function simulate candidate (in_world problem)
  = (Ok [Fin 1; Fin 2; Fin 2; Fin 2; Fin 4; Fin 4; Fin 4; Fin 8; Fin 6;
         Fin (-3)],
     in_world problem)
  /\ combine [Fin 1; Fin 2; Fin 2; Fin 2; Fin 4; Fin 4; Fin 4; Fin 8; Fin 6;
              Fin (-3)]
             (constraint_ub problem)
     = [(Fin 1, Fin 5); (Fin 2, Fin 9); (Fin 2, Fin 9);
        (Fin 2, Fin 5); (Fin 4, Fin 9); (Fin 4, Fin 9);
        (Fin 4, Fin 5); (Fin 8, Fin 9); (Fin 6, Fin 9);
        (Fin (-3), Fin 1)].
Proof.
  destruct (@constraint_function_follows_stacking xint _ simulate
              sys time square_cost [state_bound; doubled]
              (Some square_cost) [input_bound] problem [Fin 1] candidate
              candidate_inputs
              [[Fin 1]; [Fin 2; Fin 2]; [Fin 2]; [Fin 4; Fin 4];
               [Fin 4]; [Fin 8; Fin 6]; [Fin (-3)]]
              [])
    as (Hvalue & _ & _ & Hpairs).
  - reflexivity.
  - discriminate.
  - reflexivity.
  - reflexivity.
  - repeat constructor.
  - split; [exact Hvalue|].
    apply Hpairs. repeat constructor.
Defined.

Lemma cost_function_additive_witness :
  cost_function simulate candidate (in_world running_only)
  = (Ok (Fin 35), in_world running_only)
  /\ cost_function simulate candidate (in_world problem)
     = (Ok (Fin 60), in_world problem).
Proof.
  split.
  - destruct (@cost_function_additive xint _ simulate
                (with_x running_only [Fin 1]) [Fin 1] candidate
                candidate_inputs [] eq_refl eq_refl eq_refl)
      as [Hrunning _].
    exact (Hrunning eq_refl).
  - destruct (@cost_function_additive xint _ simulate
                (with_x problem [Fin 1]) [Fin 1] candidate
                candidate_inputs [] eq_refl eq_refl eq_refl)
      as [_ Hterminal].
    apply (Hterminal square_cost eq_refl). simpl. lia.
Defined.

Lemma terminal_constraints_at_final_point_witness :
  constraint_function simulate candidate (in_world problem)
  = (Ok [Fin 1; Fin 2; Fin 2; Fin 2; Fin 4; Fin 4; Fin 4; Fin 8; Fin 6;
         Fin (-3)],
     in_world problem)
  /\ evaluate candidate_states candidate_inputs (Some 2) input_bound
     = Ok [Fin (-3)].
Proof.
  destruct (@terminal_constraints_at_final_point xint _ simulate
              (with_x problem [Fin 1]) [Fin 1] candidate candidate_inputs [])
    as (Hrun & _).
  - reflexivity.
  - reflexivity.
  - discriminate.
  - split; [exact Hrun | reflexivity].
Defined.

Lemma mpc_first_sample_witness :
  mpc simulate Example2.fixed_solver packager [Fin 1] None
      {| self_ := Example2.two_inputs; warnings := [] |}
  = (Ok (Some [Fin 7; Fin 10]),
     solving [Fin 1] {| self_ := Example2.two_inputs; warnings := [] |})
  /\ __call__ simulate Example2.fixed_solver packager [Fin 1] None
              {| self_ := Example2.two_inputs; warnings := [] |}
     = mpc simulate Example2.fixed_solver packager [Fin 1] None
           {| self_ := Example2.two_inputs; warnings := [] |}.
Proof.
  destruct (@mpc_first_sample xint _ simulate Example2.fixed_solver packager)
    as [Hfirst Hcall].
  split; [|apply Hcall].
  assert (Hcolumns : 0 < shape1 Example2.optimum) by (simpl; lia).
  destruct (Hfirst {| self_ := Example2.two_inputs; warnings := [] |}
                   [Fin 1] None Example2.optimum None Example2.optimum
                   eq_refl eq_refl eq_refl Hcolumns)
    as (_ & Hmpc & _).
  exact Hmpc.
Defined.

Lemma unknown_constraint_type_witness :
  constraint_function simulate candidate (in_world odd_trajectory)
  = (Raise (TypeError_unknown_constraint (OtherType "Bounds")),
     in_world odd_trajectory)
  /\ constraint_function simulate candidate (in_world odd_terminal)
     = (Raise (TypeError_unknown_constraint (OtherType "Bounds")),
        in_world odd_terminal)
  /\ fst (constraint_function simulate candidate (in_world polytopes_only))
     <> Raise (TypeError_unknown_constraint (OtherType "Bounds")).
Proof.
  destruct (@unknown_constraint_type xint _ simulate)
    as (Htrajectory & Hterminal & Hfactory).
  split; [|split].
  - apply (Htrajectory (with_x odd_trajectory [Fin 1]) [Fin 1] candidate
                       candidate_inputs [] [state_bound] [doubled] mystery
                       "Bounds"%string);
      try reflexivity.
    + discriminate.
    + repeat constructor. exists [Fin 1]. reflexivity.
  - apply (Hterminal (with_x odd_terminal [Fin 1]) [Fin 1] candidate
                     candidate_inputs [] [[Fin 1]; [Fin 2]; [Fin 4]]
                     [input_bound] [] mystery "Bounds"%string);
      try reflexivity.
    repeat constructor. exists [Fin (-3)]. reflexivity.
  - apply Hfactory. repeat constructor.
    + exists sys, state_polytope. left. reflexivity.
    + exists sys, input_polytope. right. left. reflexivity.
Defined.

Lemma solve_frame_witness :
  let w := after_all simulate failing_solver packager
                     [call_mpc [Fin 1] None;
                      call_cost_function candidate;
                      call_compute_trajectory [Fin 2] None None None]
                     fresh in
  initial_guess (self_ w) = [Fin 0; Fin 0; Fin 0]
  /\ constraint_lb (self_ w) = constraint_lb problem
  /\ constraint_ub (self_ w) = constraint_ub problem
  /\ constraints (self_ w) = constraints problem
  /\ (forall v, with_x (self_ w) v = with_x problem v)
  /\ snd (cost_function simulate candidate w) = w.
Proof.
  intros w.
  destruct (@solve_frame xint _ simulate failing_solver packager
              sys time square_cost [state_bound; doubled]
              (Some square_cost) [input_bound] problem []
              [call_mpc [Fin 1] None;
               call_cost_function candidate;
               call_compute_trajectory [Fin 2] None None None]
              problem_constructed)
    as ((Hlb & Hub & Hconstraints & Hguess & Hrest) & Hreads & _).
  exact (conj Hguess
           (conj Hlb
              (conj Hub
                 (conj Hconstraints
                    (conj Hrest (proj1 (Hreads candidate))))))).
Defined.

(** C3 (the code departs from it). On the integrator, with a solver
    that reports failure, [compute_trajectory] emits the solver's
    message as a warning and returns [None] without raising; [mpc] at
    the same state does not return [None]: it raises the [TypeError] of
    unpacking [None] into [_, inputs]. *)
Theorem mpc_raises_on_solver_failure :
  compute_trajectory simulate failing_solver packager [Fin 1] None None None
                     fresh
  = (Ok None,
     {| self_ := with_x problem [Fin 1];
        warnings := ["Iteration limit exceeded"%string] |})
  /\ mpc simulate failing_solver packager [Fin 1] None fresh
     = (Raise TypeError_unpack_None,
        {| self_ := with_x problem [Fin 1];
           warnings := ["Iteration limit exceeded"%string] |}).
Proof.
  split.
  - apply (compute_trajectory_failure simulate failing_solver packager
             [Fin 1] None None None fresh); reflexivity.
  - apply (mpc_failure simulate failing_solver packager [Fin 1] None fresh);
      reflexivity.
Qed.

End OnTheExample.

(** * Further properties of the module *)

(** ** Evaluation at the edges: no stored state, wrong size, empty grid *)

Section EvaluationEdges.
Context {R : Type} `{Scalar R}.
Variable input_output_response :
  InputOutputSystem R -> vec R -> ndarray2 R -> vec R -> ndarray2 R.

(** X1. On an instance as the constructor leaves it, that is before any
    call of [compute_trajectory] or [mpc], both [cost_function] and
    [constraint_function] raise [AttributeError]: [self.x] does not
    exist yet.  The instance is left as it was. *)
Theorem evaluation_before_first_solve
        (sys : InputOutputSystem R) (time : vec R)
        (cost : vec R -> vec R -> R) (traj : list (constraint R))
        (tcost : option (vec R -> vec R -> R)) (term : list (constraint R))
        (self : OptimalControlProblem R) (inputs : vec R)
        (log : list string) :
  __init__ sys time cost traj tcost term = Ok self ->
  let w := {| self_ := self; warnings := log |} in
  cost_function input_output_response inputs w
  = (Raise (AttributeError "x"), w)
  /\ constraint_function input_output_response inputs w
     = (Raise (AttributeError "x"), w).
Proof.
  intros Hinit w. apply init_inv in Hinit as (_ & ->).
  split; reflexivity.
Qed.

(** X2. Once a state is stored, an input vector whose size is not
    [ninputs * N] makes both [cost_function] and [constraint_function]
    raise the [ValueError] of [reshape], before the plant is simulated
    and whatever the constraints are. *)
Theorem evaluation_wrong_size
        (self : OptimalControlProblem R) (x0 inputs : vec R)
        (log : list string) :
  x self = Some x0 ->
  length inputs <> ninputs (system self) * length (time_vector self) ->
  let w := {| self_ := self; warnings := log |} in
  cost_function input_output_response inputs w = (Raise ValueError_reshape, w)
  /\ constraint_function input_output_response inputs w
     = (Raise ValueError_reshape, w).
Proof.
  intros Hx Hsize w. apply Nat.eqb_neq in Hsize. subst w.
  unfold cost_function, constraint_function, bind, getattr_x, get_self, lift,
    reshape.
  simpl. rewrite Hx. simpl. rewrite Hsize. split; reflexivity.
Qed.

(** X3. Over an empty time grid [constraint_function] never returns a
    value.  The trajectory constraints are not looked at; with no
    terminal constraint the final [np.hstack] has nothing to
    concatenate, and otherwise the first terminal constraint either has
    an unknown type or reads the loop variable [i], which the
    trajectory loop never bound. *)
Theorem constraint_function_empty_grid
        (self : OptimalControlProblem R) (x0 inputs : vec R)
        (log : list string) :
  x self = Some x0 ->
  time_vector self = [] ->
  let w := {| self_ := self; warnings := log |} in
  constraint_function input_output_response inputs w
  = (Raise
       match inputs with
       | _ :: _ => ValueError_reshape
       | [] =>
           match terminal_constraints self with
           | [] => ValueError_concatenate
           | (OtherType n, _, _, _) :: _ =>
               TypeError_unknown_constraint (OtherType n)
           | _ :: _ => UnboundLocalError "i"
           end
       end,
     w).
Proof.
  intros Hx Htime w. subst w.
  destruct inputs as [|u0 inputs].
  - rewrite (constraint_function_run input_output_response _ []
               log Hx (U := {| shape1 := 0;
                               rows := chunks (ninputs (system self)) 0 [] |})).
    + rewrite constraint_values_loops, Htime. cbn -[evaluate].
      destruct (terminal_constraints self) as [|[[[t f] lb] ub] term];
        [reflexivity|].
      destruct t; reflexivity.
    + unfold reshape. rewrite Htime. simpl. now rewrite Nat.mul_0_r.
  - unfold constraint_function, bind, getattr_x, get_self, lift, reshape.
    simpl. rewrite Hx. simpl. rewrite Htime. simpl.
    now rewrite Nat.mul_0_r.
Qed.

(** X4. Over an empty time grid, and provided the simulation returns,
    [cost_function] on the empty input vector returns zero when there is
    no terminal cost, and raises [IndexError] when there is one: there
    is no last column to take. *)
Theorem cost_function_empty_grid
        (self : OptimalControlProblem R) (x0 : vec R) (log : list string) :
  x self = Some x0 ->
  time_vector self = [] ->
  let w := {| self_ := self; warnings := log |} in
  cost_function input_output_response [] w
  = (match terminal_cost self with
     | None => Ok zero
     | Some _ => Raise IndexError
     end, w).
Proof.
  intros Hx Htime w. subst w.
  unfold cost_function, bind, getattr_x, get_self, lift, reshape, ret.
  simpl. rewrite Hx. simpl. rewrite Htime. simpl.
  rewrite Nat.mul_0_r. simpl.
  destruct (terminal_cost self); [|reflexivity].
  unfold col_last at 1.
  destruct (shape1 _); reflexivity.
Qed.

End EvaluationEdges.

(** ** The layout of the flat input vector and of the stacked bounds *)

Section Layout.
Context {R : Type} `{Scalar R}.
Variable input_output_response :
  InputOutputSystem R -> vec R -> ndarray2 R -> vec R -> ndarray2 R.

Lemma chunks_length (r c : nat) (v : vec R) : length (chunks r c v) = r.
Proof.
  revert v; induction r as [|r IH]; intros v; simpl; [reflexivity|].
  now rewrite IH.
Qed.

Lemma reshape_shape0 (v : vec R) (r c : nat) (a : ndarray2 R) :
  reshape v r c = Ok a -> shape0 a = r.
Proof.
  unfold reshape. destruct (length v =? r * c); [|discriminate].
  intros E; injection E as <-. apply chunks_length.
Qed.

Lemma chunks_column (r c k : nat) (v : vec R) :
  k < c ->
  map (fun row => nth k row zero) (chunks r c v) = strided v r c k.
Proof.
  intros Hk. unfold strided.
  revert v; induction r as [|r IH]; intros v; [reflexivity|].
  cbn [chunks map seq]. rewrite <- seq_shift, map_map. f_equal.
  - rewrite nth_firstn. apply Nat.ltb_lt in Hk. now rewrite Hk.
  - rewrite IH. apply map_ext. intros i.
    rewrite nth_skipn. f_equal. simpl. lia.
Qed.

(** X5. The flat vector is laid out input after input: column [k] of
    the reshaped array, the input applied at time point [k], is made of
    the entries [k], [N + k], [2N + k], ... of the flat vector, one per
    input. *)
Theorem reshape_column_strided
        (v : vec R) (r c k : nat) (U : ndarray2 R) :
  reshape v r c = Ok U ->
  k < c ->
  col U k = Ok (strided v r c k)
  /\ length (strided v r c k) = r.
Proof.
  intros HU Hk. pose proof (reshape_shape1 _ _ _ HU) as H1.
  rewrite col_ok by (rewrite H1; exact Hk).
  unfold reshape in HU. destruct (length v =? r * c); [|discriminate].
  injection HU as <-. unfold column. cbn [rows].
  rewrite chunks_column by exact Hk.
  split; [reflexivity|]. unfold strided. now rewrite length_map, length_seq.
Qed.

Lemma list_sum_repeat (n s : nat) : list_sum (repeat s n) = n * s.
Proof. induction n as [|n IH]; simpl; [reflexivity | now rewrite IH]. Qed.

Lemma length_concat_repeat {A} (l : list (list A)) (n : nat) :
  length (concat (concat (repeat l n)))
  = n * list_sum (map (@length A) l).
Proof.
  induction n as [|n IH]; simpl; [reflexivity|].
  rewrite concat_app, length_app, IH, length_concat. reflexivity.
Qed.

(** X6. The stacked lower bound of a constructed problem has
    [N * (sum of the lengths of the trajectory lower bounds)
     + (sum of the lengths of the terminal lower bounds)] entries, and
    likewise the stacked upper bound. *)
Theorem stacked_bounds_length
        (sys : InputOutputSystem R) (time : vec R)
        (cost : vec R -> vec R -> R) (traj : list (constraint R))
        (tcost : option (vec R -> vec R -> R)) (term : list (constraint R))
        (self : OptimalControlProblem R) :
  __init__ sys time cost traj tcost term = Ok self ->
  length (constraint_lb self)
  = length time * list_sum (map (fun c => length (lb_of c)) traj)
    + list_sum (map (fun c => length (lb_of c)) term)
  /\ length (constraint_ub self)
     = length time * list_sum (map (fun c => length (ub_of c)) traj)
       + list_sum (map (fun c => length (ub_of c)) term).
Proof.
  intros Hinit. apply init_inv in Hinit as (_ & ->).
  cbn [constraint_lb constraint_ub].
  rewrite !stacking_order_segments, !concat_app, !length_app.
  rewrite !length_concat_repeat, !length_concat, !map_map.
  split; reflexivity.
Qed.

(** X7. The polytope factories accept a polytope of any width; the
    mismatch shows only at evaluation.  When the first trajectory
    constraint comes from [state_poly_constraint] and the polytope
    matrix has not as many columns as the simulated state has rows,
    [constraint_function] raises the [ValueError] of [np.dot]. *)
Theorem state_polytope_width_mismatch
        (self : OptimalControlProblem R) (x0 inputs : vec R)
        (U : ndarray2 R) (log : list string)
        (polytope : Polytope R) (c : constraint R)
        (rest : list (constraint R)) :
  x self = Some x0 ->
  reshape inputs (ninputs (system self)) (length (time_vector self)) = Ok U ->
  time_vector self <> [] ->
  0 < shape1 (input_output_response (system self) (time_vector self) U x0) ->
  state_poly_constraint (system self) polytope = Ok c ->
  trajectory_constraints self = c :: rest ->
  shape1 (poly_A polytope)
  <> shape0 (input_output_response (system self) (time_vector self) U x0) ->
  constraint_function input_output_response inputs
                      {| self_ := self; warnings := log |}
  = (Raise ValueError_shapes, {| self_ := self; warnings := log |}).
Proof.
  intros Hx HU Hne HX Hc Htraj Hwidth.
  pose proof (reshape_shape1 _ _ _ HU) as HU1.
  pose proof (reshape_shape0 _ _ _ HU) as HU0.
  rewrite (constraint_function_run input_output_response _ _ log Hx HU).
  rewrite constraint_values_loops. cbn zeta.
  destruct (time_vector self) as [|t0 time] eqn:Et; [congruence|].
  cbn [length seq flat_map]. rewrite mapM_app, mapM_slots, Htraj.
  cbn [mapM].
  assert (E : evaluate
                (input_output_response (system self) (t0 :: time) U x0) U
                (Some 0) c = Raise ValueError_shapes).
  { revert Hc. unfold state_poly_constraint, np_hstack2. simpl.
    unfold glue, np_zeros2, shape0; simpl.
    rewrite !repeat_length, !Nat.eqb_refl. simpl.
    intros E; injection E as <-.
    unfold evaluate, stacked.
    rewrite !col_ok by (rewrite ?HU1; simpl; lia).
    simpl. unfold np_dot. cbn [shape1].
    rewrite app_nil_r, length_app. unfold column. rewrite !length_map.
    unfold shape0, vec in HU0, Hwidth |- *.
    destruct (_ =? _) eqn:E; [|reflexivity].
    apply Nat.eqb_eq in E. lia. }
  rewrite E. reflexivity.
Qed.

End Layout.

(** ** What the descriptors of the factories evaluate to *)

Section FactoryEvaluation.
Context {R : Type} `{Scalar R}.

Lemma np_hstack2_pad_right (a : ndarray2 R) (m : nat) :
  np_hstack2 [a; np_zeros2 (shape0 a) m] = Ok (pad_right a m).
Proof.
  unfold np_hstack2. simpl. unfold glue, np_zeros2, shape0; simpl.
  rewrite repeat_length, Nat.eqb_refl.
  unfold pad_right, np_zeros. now rewrite glue_rows_right.
Qed.

Lemma np_hstack2_pad_left (a : ndarray2 R) (n : nat) :
  np_hstack2 [np_zeros2 (shape0 a) n; a] = Ok (pad_left n a).
Proof.
  unfold np_hstack2. simpl. unfold glue, np_zeros2, shape0; simpl.
  rewrite repeat_length, Nat.eqb_refl.
  unfold pad_left, np_zeros. now rewrite glue_rows_left.
Qed.

Lemma combine_app_same {A B} (l1 l2 : list A) (k1 k2 : list B) :
  length l1 = length k1 ->
  combine (l1 ++ l2) (k1 ++ k2) = combine l1 k1 ++ combine l2 k2.
Proof.
  revert k1; induction l1 as [|a l1 IH]; intros [|b k1] E;
    simpl in *; try discriminate; [reflexivity|].
  f_equal. apply IH. lia.
Qed.

Lemma fold_add_zeros (l : vec R) (a : R) :
  zero_neutral -> Forall (eq zero) l -> fold_left add l a = a.
Proof.
  intros Hz Hl. revert a; induction Hl as [|b l <- _ IH]; intros a; simpl.
  - reflexivity.
  - rewrite Hz. apply IH.
Qed.

Lemma zero_products (m : nat) (u : vec R) :
  annihilated u ->
  Forall (eq zero)
         (map (fun p => mul (fst p) (snd p)) (combine (repeat zero m) u)).
Proof.
  intros Hu. revert m; induction Hu as [|b u Hb _ IH]; intros [|m]; simpl;
    try constructor.
  - now rewrite Hb.
  - apply IH.
Qed.

Lemma inner_pad_right (r x u : vec R) (m : nat) :
  zero_neutral -> annihilated u -> length r = length x ->
  inner (r ++ repeat zero m) (x ++ u) = inner r x.
Proof.
  intros Hz Hu E. unfold inner.
  rewrite combine_app_same, map_app, fold_left_app by exact E.
  apply fold_add_zeros; [exact Hz | apply zero_products; exact Hu].
Qed.

Lemma inner_pad_left (r x u : vec R) (n : nat) :
  zero_neutral -> annihilated x -> length x = n ->
  inner (repeat zero n ++ r) (x ++ u) = inner r u.
Proof.
  intros Hz Hx E. unfold inner.
  rewrite combine_app_same, map_app, fold_left_app
    by (now rewrite repeat_length).
  now rewrite (fold_add_zeros zero Hz (zero_products n Hx)).
Qed.

Lemma stacked_point (states inputs : ndarray2 R) (k : nat) :
  k < shape1 states -> k < shape1 inputs ->
  stacked states inputs (Some k) = Ok (column states k ++ column inputs k).
Proof.
  intros Hs Hu. unfold stacked. rewrite !col_ok by assumption.
  simpl. now rewrite app_nil_r.
Qed.

Lemma column_length (a : ndarray2 R) (k : nat) :
  length (column a k) = shape0 a.
Proof. unfold column, shape0. apply length_map. Qed.

(** X8. At time point [k] the descriptor of [state_poly_constraint]
    evaluates to [A . x_k]: the zero block cancels the input, so the
    polytope constrains the state only.  This holds when the arithmetic
    has a neutral zero and the input entries are annihilated by zero,
    and when the polytope matrix is as wide as the state. *)
Theorem state_poly_constraint_state_only
        (sys : InputOutputSystem R) (polytope : Polytope R)
        (states inputs : ndarray2 R) (k : nat) :
  zero_neutral ->
  annihilated (column inputs k) ->
  rectangular (poly_A polytope) ->
  k < shape1 states -> k < shape1 inputs ->
  shape0 states = shape1 (poly_A polytope) ->
  shape0 inputs = ninputs sys ->
  exists c,
    state_poly_constraint sys polytope = Ok c
    /\ evaluate states inputs (Some k) c
       = Ok (map (fun r => inner r (column states k))
                 (rows (poly_A polytope))).
Proof.
  intros Hz Hu Hrect Hks Hku Hs Hi.
  unfold state_poly_constraint. rewrite np_hstack2_pad_right. cbn [rbind].
  eexists; split; [reflexivity|].
  unfold evaluate. rewrite stacked_point by assumption. cbn [rbind].
  unfold np_dot. cbn [shape1 rows pad_right].
  rewrite length_app, !column_length, Hs, Hi, Nat.eqb_refl.
  f_equal. rewrite map_map. apply map_ext_in. intros r Hr.
  apply inner_pad_right; [exact Hz | exact Hu |].
  rewrite column_length, Hs.
  unfold rectangular in Hrect. rewrite Forall_forall in Hrect.
  now apply Hrect.
Qed.

(** X9. At time point [k] the descriptor of [input_poly_constraint]
    evaluates to [A . u_k]: the zero block cancels the state.  This
    holds when the arithmetic has a neutral zero and the state entries
    are annihilated by zero, and when the plant has as many states as
    the simulated state has rows. *)
Theorem input_poly_constraint_input_only
        (sys : InputOutputSystem R) (polytope : Polytope R)
        (states inputs : ndarray2 R) (k : nat) :
  zero_neutral ->
  annihilated (column states k) ->
  k < shape1 states -> k < shape1 inputs ->
  shape0 states = nstates sys ->
  shape0 inputs = shape1 (poly_A polytope) ->
  exists c,
    input_poly_constraint sys polytope = Ok c
    /\ evaluate states inputs (Some k) c
       = Ok (map (fun r => inner r (column inputs k))
                 (rows (poly_A polytope))).
Proof.
  intros Hz Hx Hks Hku Hs Hi.
  unfold input_poly_constraint. rewrite np_hstack2_pad_left. cbn [rbind].
  eexists; split; [reflexivity|].
  unfold evaluate. rewrite stacked_point by assumption. cbn [rbind].
  unfold np_dot. cbn [shape1 rows pad_left].
  rewrite length_app, !column_length, Hs, Hi, Nat.eqb_refl.
  f_equal. rewrite map_map. apply map_ext. intros r.
  apply inner_pad_left; [exact Hz | exact Hx |].
  now rewrite column_length.
Qed.

(** X10. At time point [k] the descriptor of [output_poly_constraint]
    splits the stacked vector back into [x_k] and [u_k] and evaluates
    to [A @ sys._out(0, x_k, u_k)], provided the plant has as many
    states as the simulated state has rows. *)
Theorem output_poly_constraint_evaluates
        (sys : InputOutputSystem R) (polytope : Polytope R)
        (states inputs : ndarray2 R) (k : nat) :
  k < shape1 states -> k < shape1 inputs ->
  shape0 states = nstates sys ->
  evaluate states inputs (Some k) (output_poly_constraint sys polytope)
  = np_dot (poly_A polytope)
           (_out sys zero (column states k) (column inputs k)).
Proof.
  intros Hks Hku Hs.
  unfold output_poly_constraint, evaluate.
  rewrite stacked_point by assumption. cbn [rbind].
  rewrite firstn_app, skipn_app, column_length, Hs, Nat.sub_diag.
  rewrite firstn_all2, skipn_all2 by (rewrite column_length; lia).
  cbn [firstn skipn]. now rewrite app_nil_r.
Qed.

(** X11. Whatever a descriptor from the three factories evaluates to, it
    has as many entries as the descriptor's lower bound: the lower
    bounds of the factories always fit. *)
Theorem factory_value_fits_lower_bound
        (states inputs : ndarray2 R) (i : option nat)
        (c : constraint R) (y : vec R) :
  from_factory c ->
  evaluate states inputs i c = Ok y ->
  length y = length (lb_of c).
Proof.
  intros (sys & polytope & Hc) Hy.
  assert (Hdot : forall a v,
             shape0 a = shape0 (poly_A polytope) ->
             np_dot a v = Ok y -> length y = shape0 (poly_A polytope)).
  { intros a v Ha. unfold np_dot. destruct (_ =? _); [|discriminate].
    intros E; injection E as <-. now rewrite length_map. }
  destruct Hc as [Hc | [Hc | Hc]].
  - unfold state_poly_constraint in Hc.
    rewrite np_hstack2_pad_right in Hc. injection Hc as <-.
    unfold lb_of, np_full. cbn [fst snd]. rewrite repeat_length.
    simpl in Hy. apply rbind_ok in Hy as (v & _ & Hy).
    eapply Hdot; [|exact Hy].
    unfold shape0, pad_right. cbn [rows]. apply length_map.
  - unfold input_poly_constraint in Hc.
    rewrite np_hstack2_pad_left in Hc. injection Hc as <-.
    unfold lb_of, np_full. cbn [fst snd]. rewrite repeat_length.
    simpl in Hy. apply rbind_ok in Hy as (v & _ & Hy).
    eapply Hdot; [|exact Hy].
    unfold shape0, pad_left. cbn [rows]. apply length_map.
  - subst c. unfold output_poly_constraint in Hy |- *.
    unfold lb_of, np_full. cbn [fst snd]. rewrite repeat_length.
    simpl in Hy. apply rbind_ok in Hy as (v & _ & Hy).
    eapply Hdot; [reflexivity | exact Hy].
Qed.

End FactoryEvaluation.

(** ** [quadratic_cost] *)

Section QuadraticCostFacts.
Context {R : Type} `{Scalar R}.

Lemma vecmat_length (v : vec R) (a : ndarray2 R) (y : vec R) :
  vecmat v a = Ok y -> length y = shape1 a.
Proof.
  unfold vecmat. destruct (_ =? _); [|discriminate].
  intros E; injection E as <-. now rewrite length_map, length_seq.
Qed.

(** X12. The function returned by [quadratic_cost] computes
    [(x @ Q) @ x + (u @ R) @ u] exactly when [Q], made 2-D, is square of
    the size of [x] and [R], made 2-D, is square of the size of [u];
    for any other shapes it raises the [ValueError] of the matrix
    product.  The plant argument plays no part. *)
Theorem quadratic_cost_shapes
        (sys : InputOutputSystem R) (Q R_ : array_like R) (x u : vec R) :
  let Q2 := np_atleast_2d Q in
  let R2 := np_atleast_2d R_ in
  let fits :=
    shape0 Q2 = length x /\ shape1 Q2 = length x
    /\ shape0 R2 = length u /\ shape1 R2 = length u in
  (fits ->
   quadratic_cost sys Q R_ x u
   = Ok (add (inner (map (fun j => inner x (column Q2 j))
                         (seq 0 (length x))) x)
             (inner (map (fun j => inner u (column R2 j))
                         (seq 0 (length u))) u)))
  /\ (~ fits -> quadratic_cost sys Q R_ x u = Raise ValueError_shapes).
Proof.
  intros Q2 R2 fits. subst fits. unfold quadratic_cost. fold Q2 R2.
  unfold vecmat, vdot. split.
  - intros (Hq0 & Hq1 & Hr0 & Hr1).
    rewrite Hq0, Hq1, Hr0, Hr1, !Nat.eqb_refl. cbn [rbind].
    rewrite !length_map, !length_seq, !Nat.eqb_refl. reflexivity.
  - intros Hno.
    destruct (length x =? shape0 Q2) eqn:E1; cbn [rbind]; [|reflexivity].
    rewrite length_map, length_seq.
    destruct (shape1 Q2 =? length x) eqn:E2; cbn [rbind]; [|reflexivity].
    destruct (length u =? shape0 R2) eqn:E3; cbn [rbind]; [|reflexivity].
    rewrite length_map, length_seq.
    destruct (shape1 R2 =? length u) eqn:E4; cbn [rbind]; [|reflexivity].
    apply Nat.eqb_eq in E1, E2, E3, E4. exfalso. apply Hno.
    repeat split; congruence.
Qed.

End QuadraticCostFacts.

(** ** A solve does not depend on what happened before *)

Section History.
Context {R : Type} `{Scalar R}.
Variable input_output_response :
  InputOutputSystem R -> vec R -> ndarray2 R -> vec R -> ndarray2 R.
Variable minimize :
  (vec R -> result R) -> vec R -> solver_constraint R -> OptimizeResult R.
Variable _process_time_response :
  InputOutputSystem R -> vec R -> ndarray2 R -> option (ndarray2 R) ->
  option bool -> option bool -> option bool -> response R.

Local Abbreviation compute_trajectory' :=
  (compute_trajectory input_output_response minimize _process_time_response).
Local Abbreviation mpc' :=
  (mpc input_output_response minimize _process_time_response).
Local Abbreviation after_all' :=
  (after_all input_output_response minimize _process_time_response).
Local Abbreviation solver_result' :=
  (solver_result input_output_response minimize).

Lemma bind_self_determined {T U} (m : M R T) (k : T -> M R U) :
  self_determined m -> reads_only m ->
  (forall t, self_determined (k t)) ->
  self_determined (bind m k).
Proof.
  intros Hm Hr Hk w1 w2 E. unfold bind.
  pose proof (Hm w1 w2 E) as Hfst.
  pose proof (Hr w1) as H1. pose proof (Hr w2) as H2.
  destruct (m w1) as [r1 w1'], (m w2) as [r2 w2'].
  simpl in Hfst, H1, H2. subst r2 w1' w2'.
  destruct r1 as [t|e]; [apply Hk; exact E | reflexivity].
Qed.

Lemma lift_self_determined {T} (r : result T) :
  self_determined (R:=R) (lift r).
Proof. intros w1 w2 _; reflexivity. Qed.

Lemma ret_self_determined {T} (t : T) : self_determined (R:=R) (ret t).
Proof. intros w1 w2 _; reflexivity. Qed.

Lemma getattr_x_self_determined : self_determined (R:=R) getattr_x.
Proof.
  intros w1 w2 E. unfold getattr_x. rewrite E.
  destruct (x (self_ w2)); reflexivity.
Qed.

Lemma get_self_self_determined : self_determined (R:=R) get_self.
Proof. intros w1 w2 E. unfold get_self. simpl. now rewrite E. Qed.

Ltac decided :=
  repeat first
         [ apply getattr_x_self_determined
         | apply get_self_self_determined
         | apply lift_self_determined
         | apply ret_self_determined
         | apply getattr_x_reads_only
         | apply get_self_reads_only
         | apply lift_reads_only
         | apply ret_reads_only
         | apply bind_self_determined; [| |intros ?]
         | progress cbn zeta ].

Lemma cost_function_self_determined (u : vec R) :
  self_determined (cost_function input_output_response u).
Proof.
  unfold cost_function. decided.
  destruct (terminal_cost _); decided.
Qed.

Lemma constraint_function_self_determined (u : vec R) :
  self_determined (constraint_function input_output_response u).
Proof. unfold constraint_function. decided. Qed.

(** Two worlds whose instances differ in [x] at most give a solve the
    same outcome. *)
Lemma compute_trajectory_same_outcome (x0 : vec R)
      (squeeze transpose_ return_x : option bool) (w1 w2 : world R) :
  extensional minimize ->
  (forall v, with_x (self_ w1) v = with_x (self_ w2) v) ->
  fst (compute_trajectory' x0 squeeze transpose_ return_x w1)
  = fst (compute_trajectory' x0 squeeze transpose_ return_x w2).
Proof.
  intros Hext Hsame.
  assert (Hres : solver_result' x0 w1 = solver_result' x0 w2).
  { unfold solver_result, resolve, solving.
    change (initial_guess (self_ w1))
      with (initial_guess (with_x (self_ w1) x0)).
    change (constraints (self_ w1))
      with (constraints (with_x (self_ w1) x0)).
    rewrite (Hsame x0). cbn [initial_guess constraints with_x].
    destruct (nc_fun (constraints (self_ w2))).
    apply Hext; intros u.
    - now apply cost_function_self_determined.
    - now apply constraint_function_self_determined. }
  assert (Hsys : system (self_ w1) = system (self_ w2)).
  { change (system (with_x (self_ w1) x0) = system (with_x (self_ w2) x0)).
    now rewrite (Hsame x0). }
  assert (Htime : time_vector (self_ w1) = time_vector (self_ w2)).
  { change (time_vector (with_x (self_ w1) x0)
            = time_vector (with_x (self_ w2) x0)).
    now rewrite (Hsame x0). }
  unfold compute_trajectory, bind, setattr_x, get_self, get_world, lift, warn,
    ret.
  cbn [self_ warnings with_x constraints initial_guess system time_vector
         fst snd].
  fold (solving x0 w1). fold (solving x0 w2).
  fold (solver_result' x0 w1). fold (solver_result' x0 w2).
  rewrite Hres, Hsys, Htime.
  destruct (negb (success (solver_result' x0 w2))); [reflexivity|].
  destruct (reshape _ _ _); reflexivity.
Qed.

Lemma mpc_same_outcome (x0 : vec R) (squeeze : option bool)
      (w1 w2 : world R) :
  fst (compute_trajectory' x0 squeeze None None w1)
  = fst (compute_trajectory' x0 squeeze None None w2) ->
  fst (mpc' x0 squeeze w1) = fst (mpc' x0 squeeze w2).
Proof.
  unfold mpc, bind.
  destruct (compute_trajectory' x0 squeeze None None w1) as [r1 w1'],
           (compute_trajectory' x0 squeeze None None w2) as [r2 w2'].
  cbn [fst]. intros <-.
  destruct r1 as [[[s [a|]]|]|e]; try reflexivity.
  unfold lift, ret. destruct (row0 (transpose a)); reflexivity.
Qed.

(** X13. What [compute_trajectory] and [mpc] return for a state does not
    depend on the calls made before on the same instance (earlier solves,
    failed or not, and cost or constraint evaluations): nothing is
    carried over from one solve to the next.  The solver is only asked
    to depend on the values of its callbacks. *)
Theorem solve_forgets_history
        (cs : list call) (w : world R) (x0 : vec R)
        (squeeze transpose_ return_x : option bool) :
  extensional minimize ->
  fst (compute_trajectory' x0 squeeze transpose_ return_x (after_all' cs w))
  = fst (compute_trajectory' x0 squeeze transpose_ return_x w)
  /\ fst (mpc' x0 squeeze (after_all' cs w)) = fst (mpc' x0 squeeze w).
Proof.
  intros Hext.
  pose proof (after_all_keeps_all_but_x input_output_response minimize
                _process_time_response cs w) as Hkeep.
  split.
  - now apply compute_trajectory_same_outcome.
  - apply mpc_same_outcome. now apply compute_trajectory_same_outcome.
Qed.

(** X14. When the solver succeeds with an optimal point of size
    [ninputs * N] over a non-empty grid, and the packager hands the
    input trajectory through, [mpc] returns the entries [0], [N], [2N],
    ... of the optimal point: the first sample of each input, [ninputs]
    values in all. *)
Theorem mpc_returns_first_samples
        (w : world R) (x0 : vec R) (squeeze : option bool)
        (inputs : ndarray2 R) (s : option (ndarray2 R)) :
  success (solver_result' x0 w) = true ->
  reshape (res_x (solver_result' x0 w)) (ninputs (system (self_ w)))
          (length (time_vector (self_ w))) = Ok inputs ->
  _process_time_response (system (self_ w)) (time_vector (self_ w))
                         inputs None None None squeeze
  = (s, Some inputs) ->
  time_vector (self_ w) <> [] ->
  mpc' x0 squeeze w
  = (Ok (Some (strided (res_x (solver_result' x0 w))
                       (ninputs (system (self_ w)))
                       (length (time_vector (self_ w))) 0)),
     solving x0 w)
  /\ length (strided (res_x (solver_result' x0 w))
                     (ninputs (system (self_ w)))
                     (length (time_vector (self_ w))) 0)
     = ninputs (system (self_ w)).
Proof.
  intros Hok Hre Hpack Hne.
  assert (HN : 0 < length (time_vector (self_ w)))
    by (destruct (time_vector (self_ w)); simpl; [congruence | lia]).
  pose proof (compute_trajectory_success input_output_response minimize
                _process_time_response x0 squeeze w Hok Hre) as Hc.
  rewrite Hpack in Hc.
  rewrite (mpc_of_compute_trajectory _ _ _ _ _ _ Hc).
  pose proof (reshape_shape1 _ _ _ Hre) as H1.
  rewrite row0_transpose by (rewrite H1; exact HN).
  split.
  - unfold reshape in Hre. destruct (_ =? _); [|discriminate].
    injection Hre as <-. unfold column. cbn [rows].
    now rewrite chunks_column.
  - unfold strided. now rewrite length_map, length_seq.
Qed.

End History.

(** ** How evaluation can fail with descriptors from the factories *)

Section FactoryFailures.
Context {R : Type} `{Scalar R}.
Variable input_output_response :
  InputOutputSystem R -> vec R -> ndarray2 R -> vec R -> ndarray2 R.

Lemma np_dot_raises (a : ndarray2 R) (v : vec R) (e : exception) :
  np_dot a v = Raise e -> e = ValueError_shapes.
Proof.
  unfold np_dot. destruct (_ =? _); [discriminate|].
  now intros [= <-].
Qed.

Lemma factory_evaluate_raises (states inputs : ndarray2 R) (k : nat)
      (c : constraint R) (e : exception) :
  from_factory c ->
  k < shape1 states -> k < shape1 inputs ->
  evaluate states inputs (Some k) c = Raise e ->
  e = ValueError_shapes.
Proof.
  intros (sys & polytope & Hc) Hs Hu.
  destruct Hc as [Hc | [Hc | Hc]].
  - unfold state_poly_constraint in Hc.
    rewrite np_hstack2_pad_right in Hc. injection Hc as <-.
    unfold evaluate. rewrite stacked_point by assumption. cbn [rbind].
    apply np_dot_raises.
  - unfold input_poly_constraint in Hc.
    rewrite np_hstack2_pad_left in Hc. injection Hc as <-.
    unfold evaluate. rewrite stacked_point by assumption. cbn [rbind].
    apply np_dot_raises.
  - subst c. unfold output_poly_constraint, evaluate.
    rewrite stacked_point by assumption. cbn [rbind].
    apply np_dot_raises.
Qed.

(** X15. Over a non-empty grid, with a stored state, an input vector of
    the right size, a simulation with one column per time point and
    descriptors that all come from the factories, [constraint_function]
    can fail in two ways only: the [ValueError] of a matrix product
    whose shapes do not fit, or, when there is no constraint at all, the
    [ValueError] of [np.hstack] on an empty list.  In particular the
    loop variable [i] is always bound. *)
Theorem factory_constraint_function_failures
        (self : OptimalControlProblem R) (x0 inputs : vec R)
        (U : ndarray2 R) (log : list string) (e : exception) :
  x self = Some x0 ->
  reshape inputs (ninputs (system self)) (length (time_vector self)) = Ok U ->
  time_vector self <> [] ->
  shape1 (input_output_response (system self) (time_vector self) U x0)
  = length (time_vector self) ->
  Forall from_factory
         (trajectory_constraints self ++ terminal_constraints self) ->
  fst (constraint_function input_output_response inputs
                           {| self_ := self; warnings := log |})
  = Raise e ->
  e = ValueError_shapes
  \/ (e = ValueError_concatenate
      /\ trajectory_constraints self = []
      /\ terminal_constraints self = []).
Proof.
  intros Hx HU Hne HX Hfac.
  pose proof (reshape_shape1 _ _ _ HU) as HU1.
  rewrite (constraint_function_run input_output_response _ _ log Hx HU).
  cbn [fst]. rewrite constraint_values_refines by exact Hne.
  rewrite spec_over_stacking_order.
  pose proof (stacking_order_in_grid (trajectory_constraints self)
                (terminal_constraints self) Hne) as Hgrid.
  assert (Hsnd : Forall (fun kc => from_factory (snd kc))
                        (stacking_order (time_vector self)
                           (trajectory_constraints self)
                           (terminal_constraints self))).
  { apply Forall_app in Hfac as [Htraj Hterm].
    unfold stacking_order. apply Forall_app; split.
    - apply Forall_forall. intros [k c] Hin.
      apply in_flat_map in Hin as (k' & _ & Hin).
      apply in_map_iff in Hin as (c' & [= <- <-] & Hin).
      eapply Forall_forall in Htraj; eassumption.
    - apply Forall_forall. intros [k c] Hin.
      apply in_map_iff in Hin as (c' & [= <- <-] & Hin).
      eapply Forall_forall in Hterm; eassumption. }
  destruct (mapM _ _) as [vals|e'] eqn:Evals; cbn [rbind].
  - destruct vals as [|v vals]; [|discriminate].
    intros [= <-]. right. split; [reflexivity|].
    apply mapM_length in Evals. simpl in Evals.
    unfold stacking_order in Evals.
    rewrite length_app, slots_length, length_map in Evals.
    assert (0 < length (time_vector self))
      by (destruct (time_vector self); simpl; [congruence | lia]).
    split.
    + destruct (trajectory_constraints self); [reflexivity|].
      simpl in Evals. nia.
    + destruct (terminal_constraints self); [reflexivity|].
      simpl in Evals. lia.
  - intros [= <-]. left.
    revert Evals. apply (mapM_never (fun e => e = ValueError_shapes)).
    apply Forall_forall. intros kc Hin e0.
    rewrite Forall_forall in Hgrid, Hsnd.
    apply factory_evaluate_raises;
      [apply Hsnd; exact Hin
      | rewrite HX; apply Hgrid; exact Hin
      | rewrite HU1; apply Hgrid; exact Hin].
Qed.

Lemma strided_zeros (n r c k : nat) :
  strided (repeat (zero (R:=R)) n) r c k = repeat zero r.
Proof.
  unfold strided. generalize 0 as a.
  induction r as [|r IH]; intros a; simpl; [reflexivity|].
  now rewrite nth_repeat, IH.
Qed.

(** X16. The initial guess a constructed problem stores always has the
    size the evaluation expects, and it is the zero input trajectory:
    at every time point the reshaped guess gives [ninputs] zeros. *)
Theorem initial_guess_is_zero_trajectory
        (sys : InputOutputSystem R) (time : vec R)
        (cost : vec R -> vec R -> R) (traj : list (constraint R))
        (tcost : option (vec R -> vec R -> R)) (term : list (constraint R))
        (self : OptimalControlProblem R) :
  __init__ sys time cost traj tcost term = Ok self ->
  exists U,
    reshape (initial_guess self) (ninputs (system self))
            (length (time_vector self)) = Ok U
    /\ forall k, k < length (time_vector self) ->
                 col U k = Ok (repeat zero (ninputs (system self))).
Proof.
  intros Hinit. apply init_inv in Hinit as (_ & ->).
  cbn [initial_guess system time_vector].
  unfold reshape, np_zeros. rewrite repeat_length, Nat.eqb_refl.
  eexists; split; [reflexivity|].
  intros k Hk. rewrite col_ok by exact Hk.
  unfold column. cbn [rows]. rewrite chunks_column by exact Hk.
  now rewrite strided_zeros.
Qed.

End FactoryFailures.

(** * The further properties on the integrator example *)

Section OnTheExampleAgain.
Import Example Example2.

Lemma xint_zero_neutral : zero_neutral (R:=xint).
Proof.
  intros [p| | |]; try reflexivity.
  simpl. now rewrite Z.add_0_r.
Qed.

Lemma evaluation_before_first_solve_witness :
  cost_function simulate candidate fresh = (Raise (AttributeError "x"), fresh)
  /\ constraint_function simulate candidate fresh
     = (Raise (AttributeError "x"), fresh).
Proof.
  exact (@evaluation_before_first_solve xint _ simulate
           sys time square_cost [state_bound; doubled] (Some square_cost)
           [input_bound] problem candidate [] problem_constructed).
Defined.

Lemma evaluation_wrong_size_witness :
  cost_function simulate [Fin 1] (in_world problem)
  = (Raise ValueError_reshape, in_world problem)
  /\ constraint_function simulate [Fin 1] (in_world problem)
     = (Raise ValueError_reshape, in_world problem).
Proof.
  apply (@evaluation_wrong_size xint _ simulate
           (with_x problem [Fin 1]) [Fin 1] [Fin 1] []).
  - reflexivity.
  - simpl. lia.
Defined.

Lemma constraint_function_empty_grid_witness :
  constraint_function simulate [] (in_world no_time)
  = (Raise (UnboundLocalError "i"), in_world no_time).
Proof.
  apply (@constraint_function_empty_grid xint _ simulate
           (with_x no_time [Fin 1]) [Fin 1] [] []); reflexivity.
Defined.

Lemma no_time_constructed :
  __init__ sys [] square_cost [mystery] (Some square_cost) [input_bound]
  = Ok no_time
  /\ __init__ sys [] square_cost [mystery] None [input_bound]
     = Ok no_time_running_only.
Proof. split; reflexivity. Qed.

Lemma cost_function_empty_grid_witness :
  cost_function simulate [] (in_world no_time)
  = (Raise IndexError, in_world no_time)
  /\ cost_function simulate [] (in_world no_time_running_only)
     = (Ok (Fin 0), in_world no_time_running_only).
Proof.
  split.
  - exact (@cost_function_empty_grid xint _ simulate
             (with_x no_time [Fin 1]) [Fin 1] [] eq_refl eq_refl).
  - exact (@cost_function_empty_grid xint _ simulate
             (with_x no_time_running_only [Fin 1]) [Fin 1] []
             eq_refl eq_refl).
Defined.

Lemma reshape_column_strided_witness :
  col {| shape1 := 3;
         rows := [[Fin 10; Fin 11; Fin 12]; [Fin 20; Fin 21; Fin 22]] |} 1
  = Ok [Fin 11; Fin 21]
  /\ length [Fin 11; Fin 21] = 2.
Proof.
  apply (@reshape_column_strided xint _ six 2 3 1
           {| shape1 := 3;
              rows := [[Fin 10; Fin 11; Fin 12];
                       [Fin 20; Fin 21; Fin 22]] |}).
  - reflexivity.
  - lia.
Defined.

Lemma stacked_bounds_length_witness :
  length (constraint_lb problem) = 3 * 3 + 1
  /\ length (constraint_ub problem) = 3 * 3 + 1.
Proof.
  exact (@stacked_bounds_length xint _ sys time square_cost
           [state_bound; doubled] (Some square_cost) [input_bound] problem
           problem_constructed).
Defined.

Lemma state_polytope_width_mismatch_witness :
  constraint_function simulate candidate (in_world too_wide)
  = (Raise ValueError_shapes, in_world too_wide).
Proof.
  apply (@state_polytope_width_mismatch xint _ simulate
           (with_x too_wide [Fin 1]) [Fin 1] candidate candidate_inputs []
           wide_polytope wide_bound []); try reflexivity.
  - discriminate.
  - simpl. lia.
  - unfold shape0. simpl. lia.
Defined.

Lemma state_poly_constraint_state_only_witness :
  exists c,
    state_poly_constraint sys state_polytope = Ok c
    /\ evaluate candidate_states candidate_inputs (Some 1) c = Ok [Fin 2].
Proof.
  refine (@state_poly_constraint_state_only xint _ sys state_polytope
            candidate_states candidate_inputs 1 _ _ _ _ _ _ _).
  - exact xint_zero_neutral.
  - repeat constructor.
  - repeat constructor.
  - simpl. lia.
  - simpl. lia.
  - reflexivity.
  - reflexivity.
Defined.

Lemma input_poly_constraint_input_only_witness :
  exists c,
    input_poly_constraint sys input_polytope = Ok c
    /\ evaluate candidate_states candidate_inputs (Some 1) c = Ok [Fin (-2)].
Proof.
  refine (@input_poly_constraint_input_only xint _ sys input_polytope
            candidate_states candidate_inputs 1 _ _ _ _ _ _).
  - exact xint_zero_neutral.
  - repeat constructor.
  - simpl. lia.
  - simpl. lia.
  - reflexivity.
  - reflexivity.
Defined.

Lemma output_poly_constraint_evaluates_witness :
  evaluate candidate_states candidate_inputs (Some 2) output_bound
  = Ok [Fin 4].
Proof.
  refine (@output_poly_constraint_evaluates xint _ sys state_polytope
            candidate_states candidate_inputs 2 _ _ _).
  - simpl. lia.
  - simpl. lia.
  - reflexivity.
Defined.

Lemma factory_value_fits_lower_bound_witness :
  length [Fin 4] = length (lb_of output_bound).
Proof.
  apply (@factory_value_fits_lower_bound xint _ candidate_states
           candidate_inputs (Some 2) output_bound [Fin 4]).
  - exists sys, state_polytope. right. right. reflexivity.
  - reflexivity.
Defined.

Lemma quadratic_cost_shapes_witness :
  quadratic_cost sys (Number (Fin 2))
                 (Array2 {| shape1 := 1; rows := [[Fin 3]] |})
                 [Fin 1] [Fin 2]
  = Ok (Fin 14)
  /\ quadratic_cost sys (Number (Fin 2))
                    (Array2 {| shape1 := 1; rows := [[Fin 3]] |})
                    [Fin 1; Fin 1] [Fin 2]
     = Raise ValueError_shapes.
Proof.
  split.
  - destruct (@quadratic_cost_shapes xint _ sys (Number (Fin 2))
                (Array2 {| shape1 := 1; rows := [[Fin 3]] |})
                [Fin 1] [Fin 2]) as [Hfits _].
    refine (Hfits _). repeat split.
  - destruct (@quadratic_cost_shapes xint _ sys (Number (Fin 2))
                (Array2 {| shape1 := 1; rows := [[Fin 3]] |})
                [Fin 1; Fin 1] [Fin 2]) as [_ Hraises].
    refine (Hraises _). intros (E & _). discriminate E.
Defined.

Lemma failing_solver_extensional : extensional failing_solver.
Proof. intros f f' g g' guess lb ub _ _. reflexivity. Qed.

Lemma solve_forgets_history_witness :
  let w := after_all simulate failing_solver packager
                     [call_mpc [Fin 1] None;
                      call_cost_function candidate;
                      call_compute_trajectory [Fin 2] None None None]
                     fresh in
  fst (compute_trajectory simulate failing_solver packager [Fin 1]
                          None None None w)
  = fst (compute_trajectory simulate failing_solver packager [Fin 1]
                            None None None fresh)
  /\ fst (mpc simulate failing_solver packager [Fin 1] None w)
     = fst (mpc simulate failing_solver packager [Fin 1] None fresh).
Proof.
  exact (@solve_forgets_history xint _ simulate failing_solver packager
           [call_mpc [Fin 1] None;
            call_cost_function candidate;
            call_compute_trajectory [Fin 2] None None None]
           fresh [Fin 1] None None None failing_solver_extensional).
Defined.

Lemma mpc_returns_first_samples_witness :
  mpc simulate lazy_solver packager [Fin 1] None fresh
  = (Ok (Some [Fin 0]), solving [Fin 1] fresh)
  /\ length [Fin 0] = 1.
Proof.
  apply (@mpc_returns_first_samples xint _ simulate lazy_solver packager
           fresh [Fin 1] None
           {| shape1 := 3; rows := [[Fin 0; Fin 0; Fin 0]] |} None);
    try reflexivity.
  discriminate.
Defined.

Lemma factory_constraint_function_failures_witness :
  ValueError_shapes = ValueError_shapes
  \/ (ValueError_shapes = ValueError_concatenate
      /\ trajectory_constraints (with_x too_wide [Fin 1]) = []
      /\ terminal_constraints (with_x too_wide [Fin 1]) = []).
Proof.
  apply (@factory_constraint_function_failures xint _ simulate
           (with_x too_wide [Fin 1]) [Fin 1] candidate candidate_inputs []
           ValueError_shapes); try reflexivity.
  - discriminate.
  - repeat constructor.
    exists sys, wide_polytope. left. reflexivity.
Defined.

Lemma initial_guess_is_zero_trajectory_witness :
  exists U,
    reshape (initial_guess problem) 1 3 = Ok U
    /\ forall k, k < 3 -> col U k = Ok [Fin 0].
Proof.
  exact (@initial_guess_is_zero_trajectory xint _ sys time square_cost
           [state_bound; doubled] (Some square_cost) [input_bound] problem
           problem_constructed).
Defined.

End OnTheExampleAgain.
